(** * MicOn: the icon generator [generate_icon.py]

    The script creates the asset directory, then for each of seven sizes
    allocates a transparent RGBA image, draws a filled green ellipse on it
    through an [ImageDraw] handle, saves it as a PNG and prints a line.

    The development has three layers:
    - [Py] and [Os]: the bits of Python the script relies on (int and
      float arithmetic, [str], [posixpath.split], [os.makedirs] and the
      file system calls behind it and behind [open]);
    - [Pillow]: the image operations the script calls.  Pillow is a
      third-party package, not part of the repository; its operations are
      written after Pillow's [Image.py], [ImageDraw.py], [_imaging.c] and
      [Draw.c] for the one path the script exercises (mode RGBA, filled
      ellipse, PNG output);
    - the script itself, statement by statement, in a state-and-exception
      monad over a [World]. *)

From Stdlib Require Import ZArith List Bool Lia Ascii String Sorted.
From Stdlib Require Import Floats Uint63 DecimalString DecimalZ DecimalPos.
From stdpp Require Import gmap strings list.

Set Warnings "-inexact-float,-clear-no-such-hyp".

Local Open Scope Z_scope.

(** ** Python numbers and strings *)

Module Py.

(** [float(n)] for an [int] that a double represents exactly. *)
Definition float_of_int (n : Z) : float :=
  if n <? 0 then PrimFloat.opp (PrimFloat.of_uint63 (Uint63.of_Z (- n)))
  else PrimFloat.of_uint63 (Uint63.of_Z n).

(** [int * float] and [int - float]: the int operand is converted first. *)
Definition int_mul_float (n : Z) (x : float) : float :=
  PrimFloat.mul (float_of_int n) x.

Definition int_sub_float (n : Z) (x : float) : float :=
  PrimFloat.sub (float_of_int n) x.

(** [str(n)] on an [int]. *)
Definition str (n : Z) : string :=
  NilZero.string_of_int (Z.to_int n).

(** The C conversion [(int)d] of a double: truncation toward zero
    (values outside the range of [int] are not produced by the script). *)
Definition C_int_of_double (d : float) : Z :=
  match Prim2SF d with
  | S754_finite s m e =>
      let v := if 0 <=? e then Z.shiftl (Z.pos m) e
               else Z.shiftr (Z.pos m) (- e) in
      if s then - v else v
  | _ => 0
  end.

End Py.

(** ** Pillow *)

Module Pillow.

(** A pixel of a 4-band 8-bit image, in band order R, G, B, A. *)
Definition pixel : Type := Z * Z * Z * Z.

Definition alpha (p : pixel) : Z := snd p.

(** [ImagingMemoryInstance], for the 32-bit-per-pixel storage
    ([image32[y][x]]): the rows, top to bottom. *)
Record image := Imaging {
  im_mode : string;
  xsize : Z;
  ysize : Z;
  image32 : list (list pixel)
}.

(** A colour as Python passes it: a tuple of ints. *)
Definition color : Type := list Z.

Definition CLIP8 (v : Z) : Z :=
  if v <? 0 then 0 else if 255 <? v then 255 else v.

(** [getink] of [_imaging.c] for a 4-band image and a tuple colour:
    the tuple is parsed with format ["iii|i"], the alpha defaulting
    to 255. *)
Definition getink (c : color) : option pixel :=
  match c with
  | [r; g; b] => Some (CLIP8 r, CLIP8 g, CLIP8 b, CLIP8 255)
  | [r; g; b; a] => Some (CLIP8 r, CLIP8 g, CLIP8 b, CLIP8 a)
  | _ => None
  end.

(** [ImagingFill] on a freshly allocated image. *)
Definition ImagingFill (mode : string) (w h : Z) (ink : pixel) : image :=
  Imaging mode w h (replicate (Z.to_nat h) (replicate (Z.to_nat w) ink)).

(** The pixel at column [x], row [y], when inside the image. *)
Definition getpixel (im : image) (x y : Z) : option pixel :=
  if (x <? 0) || (y <? 0) then None
  else row ← image32 im !! Z.to_nat y; row !! Z.to_nat x.

(** [hline32] of [Draw.c]: overwrite row [y0] from [x0] to [x1]
    inclusive, clipped to the image. *)
Definition fill_span (x0 x1 : Z) (ink : pixel) (row : list pixel) : list pixel :=
  take (Z.to_nat x0) row
    ++ replicate (Z.to_nat (x1 - x0 + 1)) ink
    ++ drop (Z.to_nat (x1 + 1)) row.

Definition hline32 (im : image) (x0 y0 x1 : Z) (ink : pixel) : image :=
  if (0 <=? y0) && (y0 <? ysize im) then
    if xsize im <=? x0 then im
    else
      let x0 := if x0 <? 0 then 0 else x0 in
      if x1 <? 0 then im
      else
        let x1 := if xsize im <=? x1 then xsize im - 1 else x1 in
        if x1 <? x0 then im
        else
          Imaging (im_mode im) (xsize im) (ysize im)
            (alter (fill_span x0 x1 ink) (Z.to_nat y0) (image32 im))
  else im.

(** *** The ellipse iterator of [Draw.c] *)

(** Signed wrap-around of the C integer types in play. *)
Definition wrap (bits : Z) (v : Z) : Z :=
  (v + 2 ^ (bits - 1)) mod 2 ^ bits - 2 ^ (bits - 1).
Definition i32 : Z -> Z := wrap 32.
Definition i64 : Z -> Z := wrap 64.

Record quarter_state := Quarter {
  q_cx : Z; q_cy : Z; q_ex : Z; q_ey : Z;
  q_a2 : Z; q_b2 : Z; q_a2b2 : Z;
  q_finished : bool
}.

Definition quarter_init (a b : Z) : quarter_state :=
  if (a <? 0) || (b <? 0) then Quarter 0 0 0 0 0 0 0 true
  else
    let a2 := i32 (a * a) in
    let b2 := i32 (b * b) in
    Quarter a (Z.rem b 2) (Z.rem a 2) b a2 b2 (i64 (a2 * b2)) false.

(** Deviation of a point from the curve. *)
Definition quarter_delta (s : quarter_state) (x y : Z) : Z :=
  Z.abs (i64 (q_a2 s * y * y + q_b2 s * x * x - q_a2b2 s)).

Definition quarter_move (s : quarter_state) (nx ny : Z) : quarter_state :=
  Quarter nx ny (q_ex s) (q_ey s) (q_a2 s) (q_b2 s) (q_a2b2 s) (q_finished s).

Definition quarter_finish (s : quarter_state) : quarter_state :=
  Quarter (q_cx s) (q_cy s) (q_ex s) (q_ey s) (q_a2 s) (q_b2 s) (q_a2b2 s) true.

(** [quarter_next]: [None] stands for the return value -1. *)
Definition quarter_next (s : quarter_state) : option (Z * Z) * quarter_state :=
  if q_finished s then (None, s)
  else
    let ret := (q_cx s, q_cy s) in
    if (q_cx s =? q_ex s) && (q_cy s =? q_ey s) then (Some ret, quarter_finish s)
    else
      let nx := q_cx s in
      let ny := q_cy s + 2 in
      let ndelta := quarter_delta s nx ny in
      if 1 <? nx then
        let d1 := quarter_delta s (q_cx s - 2) (q_cy s + 2) in
        let '(nx, ny, ndelta) :=
          if d1 <? ndelta then (q_cx s - 2, q_cy s + 2, d1) else (nx, ny, ndelta) in
        let d2 := quarter_delta s (q_cx s - 2) (q_cy s) in
        let '(nx, ny) :=
          if d2 <? ndelta then (q_cx s - 2, q_cy s) else (nx, ny) in
        (Some ret, quarter_move s nx ny)
      else (Some ret, quarter_move s nx ny).

(** A buffered span: left end, row, right end (all doubled and centred). *)
Definition span : Type := Z * Z * Z.

Record ellipse_state := Ellipse {
  st_o : quarter_state; st_i : quarter_state;
  e_py : Z; e_pl : Z; e_pr : Z;
  e_buf : list span;          (* cl/cy/cr with bufcnt, last pushed first *)
  e_finished : bool;
  e_leftmost : Z
}.

Definition ellipse_init (a b w : Z) : ellipse_state :=
  let leftmost := Z.rem a 2 in
  let o := quarter_init a b in
  if w <? 1 then Ellipse o o 0 0 0 [] true leftmost
  else
    match quarter_next o with
    | (None, o') => Ellipse o' o' 0 0 0 [] true leftmost
    | (Some (pr, py), o') =>
        Ellipse o' (quarter_init (a - 2 * (w - 1)) (b - 2 * (w - 1)))
                  py leftmost pr [] false leftmost
    end.

(** [while ((next_ret = quarter_next(&s->st_o, &cx, &cy)) != -1 && cy <= y) {}]:
    the state after the loop and the point it stopped at, if any.
    [None] when the fuel runs out. *)
Fixpoint skip_outer (fuel : nat) (q : quarter_state) (y : Z)
  : option (quarter_state * option (Z * Z)) :=
  match fuel with
  | O => None
  | S fuel =>
      match quarter_next q with
      | (None, q') => Some (q', None)
      | (Some (cx, cy), q') =>
          if cy <=? y then skip_outer fuel q' y else Some (q', Some (cx, cy))
      end
  end.

(** The same loop on the inner quarter, whose body is [l = cx]. *)
Fixpoint skip_inner (fuel : nat) (q : quarter_state) (y l : Z)
  : option (quarter_state * Z * option (Z * Z)) :=
  match fuel with
  | O => None
  | S fuel =>
      match quarter_next q with
      | (None, q') => Some (q', l, None)
      | (Some (cx, cy), q') =>
          if cy <=? y then skip_inner fuel q' y cx else Some (q', l, Some (cx, cy))
      end
  end.

Definition push_if (c : bool) (s : span) (buf : list span) : list span :=
  if c then s :: buf else buf.

(** [ellipse_next]: the outer [None] is fuel exhaustion, the inner one the
    return value -1. *)
Definition ellipse_next (fuel : nat) (s : ellipse_state)
  : option (option span * ellipse_state) :=
  match e_buf s with
  | sp :: buf =>
      Some (Some sp, Ellipse (st_o s) (st_i s) (e_py s) (e_pl s) (e_pr s) buf
                             (e_finished s) (e_leftmost s))
  | [] =>
      if e_finished s then Some (None, s)
      else
        let y := e_py s in
        let l := e_pl s in
        let r := e_pr s in
        '(o', nxt_o) ← skip_outer fuel (st_o s) y;
        let '(fin, pr, py) :=
          match nxt_o with
          | None => (true, e_pr s, e_py s)
          | Some (cx, cy) => (false, cx, cy)
          end in
        '(i', l, nxt_i) ← skip_inner fuel (st_i s) y l;
        let pl := match nxt_i with None => e_leftmost s | Some (cx, _) => cx end in
        let ll := if l =? 0 then 2 else l in
        let wide := (0 <? l) || (l <? r) in
        let buf := push_if (wide && (0 <? y)) (ll, y, r) [] in
        let buf := push_if (0 <? y) (- r, y, - l) buf in
        let buf := push_if wide (ll, - y, r) buf in
        let buf := (- r, - y, - l) :: buf in
        match buf with
        | sp :: buf =>
            Some (Some sp, Ellipse o' i' py pl pr buf fin (e_leftmost s))
        | [] => None
        end
  end.

(** The drawing loop of [ellipseNew]. *)
Fixpoint ellipse_loop (fuel : nat) (qfuel : nat) (s : ellipse_state)
    (im : image) (x0 y0 a b : Z) (ink : pixel) : option image :=
  match fuel with
  | O => None
  | S fuel =>
      r ← ellipse_next qfuel s;
      match r with
      | (None, _) => Some im
      | (Some (X0, Y, X1), s') =>
          ellipse_loop fuel qfuel s'
            (hline32 im (x0 + Z.quot (X0 + a) 2) (y0 + Z.quot (Y + b) 2)
                        (x0 + Z.quot (X1 + a) 2) ink)
            x0 y0 a b ink
      end
  end.

(** [ellipseNew] through [ImagingDrawEllipse], with [op = 0] (no
    blending: the [draw32] table, whose [hline] is [hline32]). *)
Definition ImagingDrawEllipse (im : image) (x0 y0 x1 y1 : Z) (ink : pixel)
    (fill : bool) (width : Z) : option image :=
  let a := i32 (x1 - x0) in
  let b := i32 (y1 - y0) in
  if (a <? 0) || (b <? 0) then Some im
  else
    let width := if fill then i32 (a + b) else width in
    ellipse_loop (Z.to_nat (4 * (b + 2))) (Z.to_nat (a + b + 2))
      (ellipse_init a b width) im x0 y0 a b ink.

End Pillow.

(** ** The world the script runs in *)

(** What a file holds.  The PNG encoder is lossless and a function of the
    image alone, so a written PNG is identified with the image it encodes;
    [Data] stands for any other file. *)
Inductive content :=
  | PNG (im : Pillow.image)
  | Data (bytes : list Z).

(** Observable actions, in the order they complete. *)
Inductive event :=
  | EvMakedirs (path : string)
  | EvSave (path : string)
  | EvPrint (line : string).

(** [OSError errno] is a plain [OSError]; the five that follow are the
    subclasses of [OSError] Python raises for their errno. *)
Inductive exn :=
  | OSError (errno : Z)
  | FileExistsError
  | FileNotFoundError
  | NotADirectoryError
  | IsADirectoryError
  | PermissionError
  | ValueError
  | TypeError
  | KeyError.

(** How the operating system refuses a path that is [denied]: when it is
    created or opened, with an errno that Python raises as a plain
    [OSError] (30, read-only volume; 28, no space for a new entry); or
    only once it has been opened for writing, when the data is written
    (28, volume full), [written] being the bytes that reached the file
    by then, and [close_fails] telling whether closing the file fails
    as well, because what is still buffered cannot be written either.
    A denied path with no entry is refused when it is created or
    opened, with [PermissionError]. *)
Inductive refusal :=
  | AtOpen (errno : Z)
  | AtWrite (errno : Z) (written : list Z) (close_fails : bool).

#[global] Instance exn_eq_dec : EqDecision exn.
Proof. solve_decision. Defined.

(** [dirs] and [files]: the file system, by path.  [denied]: the paths the
    operating system refuses to create or to write (permissions,
    read-only or full volume), and [how]: the way it refuses them.
    [heap]: the image objects of the interpreter, addressed by allocation
    index.  [trace]: the events so far, oldest first. *)
Record World := mkWorld {
  dirs : gset string;
  files : gmap string content;
  denied : gset string;
  how : gmap string refusal;
  heap : list Pillow.image;
  trace : list event
}.

Definition set_dirs (d : gset string) (w : World) : World :=
  mkWorld d (files w) (denied w) (how w) (heap w) (trace w).
Definition set_files (f : gmap string content) (w : World) : World :=
  mkWorld (dirs w) f (denied w) (how w) (heap w) (trace w).
Definition set_heap (h : list Pillow.image) (w : World) : World :=
  mkWorld (dirs w) (files w) (denied w) (how w) h (trace w).
Definition log (e : event) (w : World) : World :=
  mkWorld (dirs w) (files w) (denied w) (how w) (heap w) (trace w ++ [e]).

(** The lines printed so far, and the paths saved so far. *)
Definition printed (t : list event) : list string :=
  omap (λ e, match e with EvPrint s => Some s | _ => None end) t.

Definition saved (t : list event) : list string :=
  omap (λ e, match e with EvSave p => Some p | _ => None end) t.

Definition stdout (w : World) : list string := printed (trace w).

(** *** Statements: state plus uncaught exceptions *)

(** [Hang]: a library loop that does not finish. *)
Inductive result (A : Type) :=
  | Ok (a : A)
  | Raise (e : exn)
  | Hang.
Arguments Ok {A} a.
Arguments Raise {A} e.
Arguments Hang {A}.

Definition M (A : Type) : Type := World → result A * World.

Definition ret {A} (a : A) : M A := λ w, (Ok a, w).
Definition raise {A} (e : exn) : M A := λ w, (Raise e, w).
Definition hang {A} : M A := λ w, (Hang, w).

Definition bind {A B} (m : M A) (k : A → M B) : M B :=
  λ w, match m w with
       | (Ok a, w') => k a w'
       | (Raise e, w') => (Raise e, w')
       | (Hang, w') => (Hang, w')
       end.

(** [try: m except Exception as e: h e]. *)
Definition try_except {A} (m : M A) (h : exn → M A) : M A :=
  λ w, match m w with
       | (Raise e, w') => h e w'
       | r => r
       end.

(** [try: m except e: pass] for a statement. *)
Definition try_pass (e : exn) (m : M unit) : M unit :=
  λ w, match m w with
       | (Raise e', w') => if decide (e' = e) then (Ok tt, w') else (Raise e', w')
       | r => r
       end.

#[global] Instance M_ret : MRet M := @ret.
#[global] Instance M_bind : MBind M := λ A B k m, bind m k.

Definition get {A} (f : World → A) : M A := λ w, (Ok (f w), w).
Definition modify (f : World → World) : M unit := λ w, (Ok tt, f w).

(** The [for] statement. *)
Fixpoint for_ {A} (l : list A) (body : A → M unit) : M unit :=
  match l with
  | [] => ret tt
  | x :: l => body x ;; for_ l body
  end.

(** *** [posixpath] and [os] *)

Module Os.

Definition is_slash (c : ascii) : bool := bool_decide (c = "/"%char).

(** [s.rstrip('/')]. *)
Fixpoint rstrip (s : string) : string :=
  match s with
  | "" => ""
  | String c s' =>
      match rstrip s' with
      | "" => if is_slash c then "" else String c ""
      | r => String c r
      end
  end.

(** [ (s[:i], s[i:]) ] for [i = s.rfind('/') + 1]. *)
Fixpoint cut (s : string) : string * string :=
  match s with
  | "" => ("", "")
  | String c s' =>
      let '(h, t) := cut s' in
      match h with
      | "" => if is_slash c then (String c "", s') else ("", String c t)
      | _ => (String c h, t)
      end
  end.

(** [posixpath.split]. *)
Definition split (p : string) : string * string :=
  let '(head, tail) := cut p in
  match rstrip head with
  | "" => (head, tail)
  | h => (h, tail)
  end.

Definition exists_ (p : string) (w : World) : bool :=
  bool_decide (p ∈ dirs w) || bool_decide (is_Some (files w !! p)).

Definition isdir (p : string) (w : World) : bool :=
  bool_decide (p ∈ dirs w).

(** Whether the directory part of [p] names a directory; the empty
    directory part is the working directory. *)
Definition parent_error (p : string) (w : World) : option exn :=
  let d := fst (split p) in
  if bool_decide (d = "") then None
  else if isdir d w then None
  else if exists_ d w then Some NotADirectoryError
  else Some FileNotFoundError.

(** The error with which a denied path is refused when it is created. *)
Definition create_refusal (p : string) (w : World) : exn :=
  match how w !! p with
  | None => PermissionError
  | Some (AtOpen n) => OSError n
  | Some (AtWrite n _ _) => OSError n
  end.

(** The [mkdir] system call. *)
Definition mkdir (p : string) : M unit := λ w,
  match parent_error p w with
  | Some e => (Raise e, w)
  | None =>
      if exists_ p w then (Raise FileExistsError, w)
      else if bool_decide (p ∈ denied w) then (Raise (create_refusal p w), w)
      else (Ok tt, set_dirs ({[p]} ∪ dirs w) w)
  end.

(** The last statement of [os.makedirs]:
    [try: mkdir(name) except OSError: if not exist_ok or not isdir(name): raise]. *)
Definition mkdir_last (name : string) (exist_ok : bool) : M unit := λ w,
  match mkdir name w with
  | (Raise e, w') =>
      if negb exist_ok || negb (isdir name w') then (Raise e, w') else (Ok tt, w')
  | r => r
  end.

(** [head, tail = split(name); if not tail: head, tail = split(head)]. *)
Definition head_tail (name : string) : string * string :=
  match snd (split name) with
  | "" => split (fst (split name))
  | _ => split name
  end.

(** [os.makedirs(name, exist_ok=...)], recursion on the head included;
    the fuel bounds the depth by the length of the path. *)
Fixpoint makedirs_rec (fuel : nat) (name : string) (exist_ok : bool) : M unit :=
  match fuel with
  | O => hang
  | S fuel =>
      let head := fst (head_tail name) in
      let tail := snd (head_tail name) in
      λ w,
        if negb (bool_decide (head = "")) && negb (bool_decide (tail = ""))
           && negb (exists_ head w)
        then
          (try_pass FileExistsError (makedirs_rec fuel head exist_ok) ;;
           if bool_decide (tail = ".") then ret tt else mkdir_last name exist_ok) w
        else mkdir_last name exist_ok w
  end.

Definition makedirs (name : string) (exist_ok : bool) : M unit :=
  makedirs_rec (S (String.length name)) name exist_ok ;;
  modify (log (EvMakedirs name)).

(** The error of [open(filename, "w+b")], if any. *)
Definition open_error (filename : string) (w : World) : option exn :=
  match parent_error filename w with
  | Some e => Some e
  | None =>
      if isdir filename w then Some IsADirectoryError
      else if bool_decide (filename ∈ denied w) then
        match how w !! filename with
        | None => Some PermissionError
        | Some (AtOpen n) => Some (OSError n)
        | Some (AtWrite _ _ _) => None
        end
      else None
  end.

(** [open(filename, "w+b")]: the file is created, or truncated. *)
Definition open_wb (filename : string) : M unit := λ w,
  match open_error filename w with
  | Some e => (Raise e, w)
  | None => (Ok tt, set_files (<[filename := Data []]> (files w)) w)
  end.

(** The error of writing to [filename] once it is open, if any, with
    the bytes that reached the file and whether closing fails too. *)
Definition write_error (filename : string) (w : World)
    : option (exn * list Z * bool) :=
  if bool_decide (filename ∈ denied w) then
    match how w !! filename with
    | Some (AtWrite n written close_fails) => Some (OSError n, written, close_fails)
    | _ => None
    end
  else None.

(** Writing the whole of [c] to the open file.  When the write fails
    the file is left with what reached it. *)
Definition write (filename : string) (c : content) : M unit := λ w,
  match write_error filename w with
  | Some (e, written, _) =>
      (Raise e, set_files (<[filename := Data written]> (files w)) w)
  | None => (Ok tt, set_files (<[filename := c]> (files w)) w)
  end.

(** [fp.close()], which writes what is still buffered. *)
Definition close (filename : string) : M unit := λ w,
  match write_error filename w with
  | Some (e, _, true) => (Raise e, w)
  | _ => (Ok tt, w)
  end.

(** [os.remove]. *)
Definition remove (filename : string) : M unit := λ w,
  if isdir filename w then (Raise IsADirectoryError, w)
  else
    match files w !! filename with
    | None => (Raise FileNotFoundError, w)
    | Some _ => (Ok tt, set_files (delete filename (files w)) w)
    end.

End Os.

(** [print(line)]. *)
Definition print (line : string) : M unit := modify (log (EvPrint line)).

(** ** Pillow's Python interface, on image objects of the heap *)

Definition loc : Type := nat.

(** [Image.new(mode, size, color)]: [_check_size], then [core.fill].
    Only mode ["RGBA"] is covered; any other mode is rejected here. *)
Definition Image_new (mode : string) (size : Z * Z) (c : Pillow.color) : M loc :=
  let '(w, h) := size in
  if (w <? 0) || (h <? 0) then raise ValueError
  else if negb (bool_decide (mode = "RGBA")) then raise ValueError
  else
    match Pillow.getink c with
    | None => raise TypeError
    | Some ink =>
        l ← get (λ s, List.length (heap s));
        modify (λ s, set_heap (heap s ++ [Pillow.ImagingFill mode w h ink]) s) ;;
        ret l
    end.

(** The [ImageDraw] object: the image it draws on (shared, not copied)
    and its mode. *)
Record ImageDraw := mkDraw {
  draw_im : loc;
  draw_mode : string
}.

(** [ImageDraw.Draw(im)] with [mode=None]: the mode is the image's, and
    there is no blending. *)
Definition ImageDraw_Draw (im : loc) : M ImageDraw :=
  o ← get (λ w, heap w !! im);
  match o with
  | None => raise ValueError
  | Some i => ret (mkDraw im (Pillow.im_mode i))
  end.

(** [_draw_ellipse] of [_imaging.c]: the coordinates are read as doubles,
    checked, and converted with [(int)]. *)
Definition draw_ellipse (d : ImageDraw) (xy : list float) (ink : Pillow.pixel)
    (fill : bool) (width : Z) : M unit :=
  match xy with
  | [x0; y0; x1; y1] =>
      if PrimFloat.ltb x1 x0 then raise ValueError
      else if PrimFloat.ltb y1 y0 then raise ValueError
      else
        o ← get (λ w, heap w !! draw_im d);
        match o with
        | None => raise ValueError
        | Some im =>
            match Pillow.ImagingDrawEllipse im
                    (Py.C_int_of_double x0) (Py.C_int_of_double y0)
                    (Py.C_int_of_double x1) (Py.C_int_of_double y1)
                    ink fill width with
            | None => hang
            | Some im' => modify (λ w, set_heap (<[draw_im d := im']> (heap w)) w)
            end
        end
  | _ => raise TypeError
  end.

(** [ImageDraw._getink(ink, fill)]; the default ink is [draw_ink(-1)]. *)
Definition default_ink : Pillow.pixel := (255, 255, 255, 255).

Definition ImageDraw_getink (ink fill : option Pillow.color)
  : M (option Pillow.pixel * option Pillow.pixel) :=
  match ink, fill with
  | None, None => ret (Some default_ink, None)
  | _, _ =>
      let conv (c : option Pillow.color) : M (option Pillow.pixel) :=
        match c with
        | None => ret None
        | Some c => match Pillow.getink c with
                    | None => raise TypeError
                    | Some p => ret (Some p)
                    end
        end in
      i ← conv ink; f ← conv fill; ret (i, f)
  end.

#[global] Instance pixel_eq_dec : EqDecision Pillow.pixel.
Proof. unfold Pillow.pixel. solve_decision. Defined.

(** [ImageDraw.ellipse(xy, fill, outline, width)]. *)
Definition ImageDraw_ellipse (d : ImageDraw) (xy : list float)
    (fill outline : option Pillow.color) (width : Z) : M unit :=
  '(ink, fill_ink) ← ImageDraw_getink outline fill;
  match fill_ink with
  | Some f => draw_ellipse d xy f true 0
  | None => ret tt
  end ;;
  match ink with
  | Some i =>
      if negb (bool_decide (ink = fill_ink)) && negb (width =? 0)
      then draw_ellipse d xy i false width
      else ret tt
  | None => ret tt
  end.

(** [img.save(filename, format)]: the format selects the encoder, the
    file is opened for writing and the encoded image written.  When the
    encoder raises, the file is closed, it is removed if the call had
    created it, and the exception is raised again. *)
Definition Image_save (im : loc) (filename : string) (format : string) : M unit :=
  if negb (bool_decide (format = "PNG")) then raise KeyError
  else
    o ← get (λ w, heap w !! im);
    match o with
    | None => raise ValueError
    | Some i =>
        created ← get (λ w, negb (Os.exists_ filename w));
        Os.open_wb filename ;;
        try_except (Os.write filename (PNG i))
          (λ e, Os.close filename ;;
                (if created : bool then try_pass PermissionError (Os.remove filename)
                 else ret tt) ;;
                raise e) ;;
        Os.close filename ;;
        modify (log (EvSave filename))
    end.

(** ** The script *)

Definition icon_dir : string := "MicOn/Assets.xcassets/AppIcon.appiconset".

Definition sizes : list Z := [16; 32; 64; 128; 256; 512; 1024].

Definition green_color : Pillow.color := [52; 199; 89].

(** [margin = size * 0.05] *)
Definition margin (size : Z) : float := Py.int_mul_float size 0.05%float.

(** [f"{icon_dir}/icon_{size}.png"] *)
Definition filename (size : Z) : string :=
  icon_dir +:+ "/icon_" +:+ Py.str size +:+ ".png".

(** The body of the loop. *)
Definition body (size : Z) : M unit :=
  img ← Image_new "RGBA" (size, size) [0; 0; 0; 0];
  draw ← ImageDraw_Draw img;
  let margin := margin size in
  ImageDraw_ellipse draw
    [margin; margin; Py.int_sub_float size margin; Py.int_sub_float size margin]
    (Some green_color) None 1 ;;
  let filename := filename size in
  Image_save img filename "PNG" ;;
  print ("Created " +:+ filename).

Definition main : M unit :=
  Os.makedirs icon_dir true ;;
  for_ sizes body ;;
  print "All icons generated successfully!".

(** ** What one iteration computes *)

Definition transparent : Pillow.pixel := (0, 0, 0, 0).
Definition green : Pillow.pixel := (52, 199, 89, 255).

(** The image the loop body builds for [size], as a function of [size]
    alone: a transparent buffer with the filled ellipse drawn onto it. *)
Definition icon (size : Z) : option Pillow.image :=
  Pillow.ImagingDrawEllipse
    (Pillow.ImagingFill "RGBA" size size transparent)
    (Py.C_int_of_double (margin size))
    (Py.C_int_of_double (margin size))
    (Py.C_int_of_double (Py.int_sub_float size (margin size)))
    (Py.C_int_of_double (Py.int_sub_float size (margin size)))
    green true 0.

Definition empty_image : Pillow.image := Pillow.Imaging "" 0 0 [].

Definition the_icon (size : Z) : Pillow.image := default empty_image (icon size).

Definition created (size : Z) : string := "Created " +:+ filename size.

Definition done_line : string := "All icons generated successfully!".

(** The world after an iteration that succeeded. *)
Definition after_body (size : Z) (w : World) : World :=
  log (EvPrint (created size))
    (log (EvSave (filename size))
       (set_files (<[filename size := PNG (the_icon size)]> (files w))
          (set_heap (heap w ++ [the_icon size]) w))).

(** What a write that failed after [written] leaves at the path [f]:
    the file with these bytes, unless closing it succeeds and the call
    had created it, in which case it is removed. *)
Definition left_by (f : string) (w : World) (written : list Z) (close_fails : bool)
    : option (list Z) :=
  if close_fails || Os.exists_ f w then Some written else None.

(** The world after an iteration that failed at [img.save]: the image
    was allocated and drawn; [left] is what the failed write left in the
    file, if it left one. *)
Definition failed_body (size : Z) (left : option (list Z)) (w : World) : World :=
  let w' := set_heap (heap w ++ [the_icon size]) w in
  match left with
  | Some written => set_files (<[filename size := Data written]> (files w')) w'
  | None => w'
  end.

(** The loop, as the first failing [img.save] decides it. *)
Fixpoint loop_spec (l : list Z) (w : World) : result unit * World :=
  match l with
  | [] => (Ok tt, w)
  | size :: l =>
      match Os.open_error (filename size) w with
      | Some e => (Raise e, failed_body size None w)
      | None =>
          match Os.write_error (filename size) w with
          | Some (e, written, close_fails) =>
              (Raise e,
               failed_body size (left_by (filename size) w written close_fails) w)
          | None => loop_spec l (after_body size w)
          end
      end
  end.

(** The side conditions under which the body of the loop is the
    straight-line code above: none of the library's own checks fires. *)
Definition drawable (size : Z) : bool :=
  (0 <=? size)
  && negb (PrimFloat.ltb (Py.int_sub_float size (margin size)) (margin size))
  && bool_decide (is_Some (icon size)).

Ltac world_simpl :=
  unfold set_dirs, set_files, set_heap, log in *;
  cbn [dirs files denied how heap trace] in *.

(** ** Vocabulary of the statements *)

(** What a statement may change of the file system: it only adds
    directories. *)
Definition adds_dirs (w w' : World) : Prop :=
  dirs w ⊆ dirs w' ∧ files w' = files w ∧ denied w' = denied w
  ∧ heap w' = heap w ∧ trace w' = trace w.

(** Inside an existing [icon_dir], what stops [img.save] is the path
    itself: the error it raises, at [open] or at the write, if any; and
    what a failed write leaves in the file. *)
Definition blocked (f : string) (w : World) : option exn :=
  if Os.isdir f w then Some IsADirectoryError
  else if bool_decide (f ∈ denied w) then Some (Os.create_refusal f w)
  else None.

Definition partial (f : string) (w : World) : option (list Z) :=
  if Os.isdir f w then None
  else
    match Os.write_error f w with
    | Some (_, written, close_fails) => left_by f w written close_fails
    | None => None
    end.

(** The world after the iterations for [l] all succeeded. *)
Definition run_bodies (l : list Z) (w : World) : World :=
  foldl (λ w size, after_body size w) w l.

Definition body_events (size : Z) : list event :=
  [EvSave (filename size); EvPrint (created size)].

(** The world when the iteration for [size] fails at [img.save], after
    those for [pre] succeeded. *)
Definition stopped (pre : list Z) (size : Z) (w : World) : World :=
  let w' := run_bodies pre w in
  failed_body size (partial (filename size) w') w'.

(** A buffer of [ysize] rows of [xsize] pixels, with the given mode. *)
Definition shaped (mode : string) (w h : Z) (im : Pillow.image) : Prop :=
  Pillow.im_mode im = mode ∧ Pillow.xsize im = w ∧ Pillow.ysize im = h
  ∧ List.length (Pillow.image32 im) = Z.to_nat h
  ∧ Forall (λ row, List.length row = Z.to_nat w) (Pillow.image32 im).

(** *** Runs *)

Definition outcome (w : World) : result unit := fst (main w).
Definition final (w : World) : World := snd (main w).

(** The world once [os.makedirs] has been called. *)
Definition prepared (w : World) : World := snd (Os.makedirs icon_dir true w).

Definition empty_world : World := mkWorld ∅ ∅ ∅ ∅ [] [].

Definition makedirs_calls (t : list event) : list string :=
  omap (λ e, match e with EvMakedirs p => Some p | _ => None end) t.

(** Where a file system error is met: in [os.makedirs]; at the [open]
    of the file of a size; or in the write that follows the [open],
    after [written] reached the file, closing the file failing as well
    or not. *)
Inductive failure_point :=
  | InMakedirs
  | InOpen (size : Z)
  | InWrite (size : Z) (written : list Z) (close_fails : bool).

(** [img.save] of the file of [size] meets no error. *)
Definition saves (size : Z) (w : World) : Prop :=
  Os.open_error (filename size) w = None
  ∧ Os.write_error (filename size) w = None.

(** The first file system error of a run from [w] is [e], met at [at_]
    after the sizes [pre] were completed. *)
Definition fails_at (w : World) (pre : list Z) (at_ : failure_point) (e : exn) : Prop :=
  match at_ with
  | InMakedirs => fst (Os.makedirs icon_dir true w) = Raise e ∧ pre = []
  | InOpen size =>
      fst (Os.makedirs icon_dir true w) = Ok tt
      ∧ (∃ post, sizes = pre ++ size :: post)
      ∧ (∀ s, s ∈ pre → saves s (prepared w))
      ∧ Os.open_error (filename size) (prepared w) = Some e
  | InWrite size written close_fails =>
      fst (Os.makedirs icon_dir true w) = Ok tt
      ∧ (∃ post, sizes = pre ++ size :: post)
      ∧ (∀ s, s ∈ pre → saves s (prepared w))
      ∧ Os.open_error (filename size) (prepared w) = None
      ∧ Os.write_error (filename size) (prepared w) = Some (e, written, close_fails)
  end.

(** A world whose volume refuses the third file. *)
Definition denied_world : World := mkWorld ∅ ∅ {[filename 64]} ∅ [] [].

(** A world whose volume is full when the third file is written: the
    file is created, no byte of it reaches the volume, and closing it
    fails like the write. *)
Definition full_world : World :=
  mkWorld ∅ ∅ {[filename 64]} {[filename 64 := AtWrite 28 [] true]} [] [].

(** The same when the third file is there from an earlier run, on a
    volume where the file can be closed. *)
Definition full_again_world : World :=
  mkWorld ∅ {[filename 64 := Data [137; 80; 78; 71]]}
          {[filename 64]} {[filename 64 := AtWrite 28 [] false]} [] [].

(** Directories form a tree: the directory part of the path of a
    directory is itself a directory (or is empty, for a path relative to
    the working directory). *)
Definition tree_shaped (w : World) : Prop :=
  ∀ p, p ∈ dirs w → fst (Os.split p) = ""%string ∨ fst (Os.split p) ∈ dirs w.

(** A world where the asset catalogue exists and holds another file. *)
Definition contents_json : string := icon_dir +:+ "/Contents.json".

Definition catalogue_world : World :=
  mkWorld {[ "MicOn"%string; "MicOn/Assets.xcassets"%string; icon_dir ]}
          {[ contents_json := Data [123; 125] ]}
          ∅ ∅ [] [].

(** *** Pixels *)

(** A test on every pixel of an image, by row and column. *)
Fixpoint all_row (P : Z → Pillow.pixel → bool) (x : Z) (row : list Pillow.pixel) : bool :=
  match row with
  | [] => true
  | p :: row => P x p && all_row P (x + 1) row
  end.

Fixpoint all_rows (P : Z → Z → Pillow.pixel → bool) (y : Z)
    (rows : list (list Pillow.pixel)) : bool :=
  match rows with
  | [] => true
  | row :: rows => all_row (P y) 0 row && all_rows P (y + 1) rows
  end.

Definition all_pixels (P : Z → Z → Pillow.pixel → bool) (im : Pillow.image) : bool :=
  all_rows P 0 (Pillow.image32 im).

(** Twenty times the offset of the centre of pixel [i] from the centre
    of an image of [size] pixels, and the squared distance of a pixel. *)
Definition off20 (size i : Z) : Z := 20 * i + 10 - 10 * size.

Definition dist2 (size x y : Z) : Z :=
  off20 size x * off20 size x + off20 size y * off20 size y.

(** The centre of the pixel is within the circle of radius
    [0.45 * size - 1] about the centre of the image. *)
Definition inside (size x y : Z) : bool :=
  dist2 size x y <=? (9 * size - 20) * (9 * size - 20).

(** The centre of the pixel is beyond radius [0.45 * size + 1]. *)
Definition outside (size x y : Z) : bool :=
  (9 * size + 20) * (9 * size + 20) <? dist2 size x y.

(** The pixel column (or row) [i], which covers [i, i + 1), meets the
    interval from [margin] to [size - margin]. *)
Definition meets_box (size i : Z) : bool :=
  PrimFloat.ltb (margin size) (Py.float_of_int (i + 1))
  && PrimFloat.leb (Py.float_of_int i) (Py.int_sub_float size (margin size)).

Definition pixel_eqb (p q : Pillow.pixel) : bool :=
  let '(r, g, b, a) := p in
  let '(r', g', b', a') := q in
  (r =? r') && (g =? g') && (b =? b') && (a =? a').

(** What holds of each pixel of an icon: it is the fill colour or the
    background; it is filled when inside, background when outside; a
    filled pixel meets the requested box. *)
Definition pixel_ok (size x y : Z) (p : Pillow.pixel) : bool :=
  if pixel_eqb p green then
    negb (outside size x y) && meets_box size x && meets_box size y
  else
    pixel_eqb p transparent && negb (inside size x y).

(** The same test, by row then column, with what depends on the size
    or on the row alone computed once. *)
Definition pixel_ok_fast (size : Z) : Z → Z → Pillow.pixel → bool :=
  let c := 10 - 10 * size in
  let r_in := (9 * size - 20) * (9 * size - 20) in
  let r_out := (9 * size + 20) * (9 * size + 20) in
  let lo := margin size in
  let hi := Py.int_sub_float size lo in
  λ y,
    let dy := 20 * y + c in
    let dy2 := dy * dy in
    let row_meets := PrimFloat.ltb lo (Py.float_of_int (y + 1))
                     && PrimFloat.leb (Py.float_of_int y) hi in
    λ x p,
      let dx := 20 * x + c in
      let d := dx * dx + dy2 in
      if pixel_eqb p green then
        negb (r_out <? d)
        && (PrimFloat.ltb lo (Py.float_of_int (x + 1))
            && PrimFloat.leb (Py.float_of_int x) hi)
        && row_meets
      else pixel_eqb p transparent && negb (d <=? r_in).







(** The exceptions of the file system calls: [OSError] and its
    subclasses. *)
Definition is_os_error (e : exn) : bool :=
  match e with
  | OSError _ | FileExistsError | FileNotFoundError | NotADirectoryError
  | IsADirectoryError | PermissionError => true
  | ValueError | TypeError | KeyError => false
  end.

(** The ancestors of the output directory. *)
Definition dir1 : string := "MicOn".
Definition dir2 : string := "MicOn/Assets.xcassets".

(** [w'] is [w] with the directories [D] added, and nothing else changed. *)
Definition created_dirs (D : gset string) (w w' : World) : Prop :=
  dirs w' = D ∪ dirs w ∧ files w' = files w ∧ denied w' = denied w
  ∧ heap w' = heap w ∧ trace w' = trace w.

(** Nothing in the way of the run: no regular file sits at the path of
    the output directory or of one of its ancestors, none of these paths
    is refused, and no path of an icon is a directory or refused. *)
Definition writable (w : World) : Prop :=
  (∀ p, p ∈ [dir1; dir2; icon_dir] → files w !! p = None ∧ p ∉ denied w)
  ∧ (∀ size, size ∈ sizes → (filename size ∉ dirs w) ∧ (filename size ∉ denied w)).

(** [w'] is [w] after drawing on the image object [l]: that object may
    have new pixels, in a buffer of the same mode and dimensions; every
    other object, the file system and the trace are as they were. *)
Definition redrawn (l : loc) (w w' : World) : Prop :=
  dirs w' = dirs w ∧ files w' = files w ∧ denied w' = denied w
  ∧ trace w' = trace w
  ∧ List.length (heap w') = List.length (heap w)
  ∧ (∀ l', l' ≠ l → heap w' !! l' = heap w !! l')
  ∧ (∀ im mode x y, heap w !! l = Some im → shaped mode x y im →
       ∃ im', heap w' !! l = Some im' ∧ shaped mode x y im').

(** Equality of rows and of buffers, pixel by pixel. *)
Fixpoint row_eqb (a b : list Pillow.pixel) : bool :=
  match a, b with
  | [], [] => true
  | p :: a, q :: b => pixel_eqb p q && row_eqb a b
  | _, _ => false
  end.

Fixpoint rows_eqb (a b : list (list Pillow.pixel)) : bool :=
  match a, b with
  | [], [] => true
  | r :: a, s :: b => row_eqb r s && rows_eqb a b
  | _, _ => false
  end.

(** The buffer equals its mirror image about both axes. *)
Definition mirrored (im : Pillow.image) : bool :=
  rows_eqb (Pillow.image32 im) (reverse (Pillow.image32 im))
  && forallb (λ row, row_eqb row (reverse row)) (Pillow.image32 im).

(** * Properties *)

(** ** The body of the loop *)

Lemma open_error_heap f h w : Os.open_error f (set_heap h w) = Os.open_error f w.
Proof. reflexivity. Qed.

Lemma lookup_snoc_here {A} (l : list A) (x : A) : (l ++ [x]) !! List.length l = Some x.
Proof. by rewrite lookup_app_r, Nat.sub_diag by lia. Qed.

Lemma insert_snoc_here {A} (l : list A) (x y : A) :
  <[List.length l := y]> (l ++ [x]) = l ++ [y].
Proof. by rewrite insert_app_r_alt, Nat.sub_diag by lia. Qed.

Lemma bind_ok {A B} (m : M A) (k : A → M B) w a w' :
  m w = (Ok a, w') → (m ≫= k) w = k a w'.
Proof. intros H. unfold mbind, M_bind, bind. by rewrite H. Qed.

Lemma bind_raise {A B} (m : M A) (k : A → M B) w e w' :
  m w = (Raise e, w') → (m ≫= k) w = (Raise e, w').
Proof. intros H. unfold mbind, M_bind, bind. by rewrite H. Qed.

Lemma bind_hang {A B} (m : M A) (k : A → M B) w w' :
  m w = (Hang, w') → (m ≫= k) w = (Hang, w').
Proof. intros H. unfold mbind, M_bind, bind. by rewrite H. Qed.

Lemma Image_new_ok size w :
  0 ≤ size →
  Image_new "RGBA" (size, size) [0; 0; 0; 0] w =
    (Ok (List.length (heap w)),
     set_heap (heap w ++ [Pillow.ImagingFill "RGBA" size size transparent]) w).
Proof.
  intros Hsize. unfold Image_new.
  replace (size <? 0) with false by (symmetry; apply Z.ltb_ge; lia).
  reflexivity.
Qed.

Lemma ImageDraw_Draw_ok l im w :
  heap w !! l = Some im →
  ImageDraw_Draw l w = (Ok (mkDraw l (Pillow.im_mode im)), w).
Proof.
  intros H. unfold ImageDraw_Draw.
  erewrite bind_ok by reflexivity. by rewrite H.
Qed.

Lemma draw_ellipse_ok d x0 y0 x1 y1 ink fill width im im' w :
  PrimFloat.ltb x1 x0 = false →
  PrimFloat.ltb y1 y0 = false →
  heap w !! draw_im d = Some im →
  Pillow.ImagingDrawEllipse im
    (Py.C_int_of_double x0) (Py.C_int_of_double y0)
    (Py.C_int_of_double x1) (Py.C_int_of_double y1) ink fill width = Some im' →
  draw_ellipse d [x0; y0; x1; y1] ink fill width w =
    (Ok tt, set_heap (<[draw_im d := im']> (heap w)) w).
Proof.
  intros Hx Hy Hd Hdraw. unfold draw_ellipse. rewrite Hx, Hy.
  erewrite bind_ok by reflexivity. by rewrite Hd, Hdraw.
Qed.

(** With a fill colour and no outline, [ellipse] is the fill pass alone. *)
Lemma ImageDraw_ellipse_fill_only d xy c ink width w :
  Pillow.getink c = Some ink →
  ImageDraw_ellipse d xy (Some c) None width w = draw_ellipse d xy ink true 0 w.
Proof.
  intros Hink. unfold ImageDraw_ellipse, ImageDraw_getink. rewrite Hink.
  unfold mbind, M_bind, bind, ret, mret, M_ret.
  by destruct (draw_ellipse d xy ink true 0 w) as [[[]| |] ?].
Qed.

Lemma Image_save_spec l im f w :
  heap w !! l = Some im →
  Image_save l f "PNG" w =
    match Os.open_error f w with
    | Some e => (Raise e, w)
    | None =>
        match Os.write_error f w with
        | Some (e, written, close_fails) =>
            (Raise e,
             match left_by f w written close_fails with
             | Some written => set_files (<[f := Data written]> (files w)) w
             | None => w
             end)
        | None => (Ok tt, log (EvSave f) (set_files (<[f := PNG im]> (files w)) w))
        end
    end.
Proof.
  intros H. unfold Image_save.
  rewrite bool_decide_eq_true_2 by done. cbn [negb].
  erewrite bind_ok by reflexivity. rewrite H.
  erewrite bind_ok by reflexivity.
  unfold left_by, Os.exists_, mbind, M_bind, bind, Os.open_wb.
  destruct (Os.open_error f w) as [e|] eqn:Ho; [done|].
  assert (Hnd : Os.isdir f w = false).
  { unfold Os.open_error in Ho. destruct (Os.parent_error f w); [done|].
    by destruct (Os.isdir f w). }
  unfold Os.isdir in Hnd. rewrite Hnd. cbn [orb negb].
  destruct w as [d fl dn hw h t].
  unfold try_except, Os.write, Os.close, Os.remove, try_pass, Os.write_error, Os.isdir,
    ret, raise, modify in *.
  world_simpl.
  destruct (bool_decide (f ∈ dn)) eqn:Hden;
    [destruct (hw !! f) as [[n|n written [|]]|] eqn:Hhw|];
    cbn [orb negb]; world_simpl; rewrite ?Hden, ?Hhw, ?insert_insert_eq; try done.
  cbn [orb negb]; world_simpl; rewrite ?insert_insert_eq.
  destruct (bool_decide (is_Some (fl !! f))) eqn:Hex; cbn [negb]; [done|].
  world_simpl. rewrite Hnd, lookup_insert_eq.
  apply bool_decide_eq_false in Hex.
  rewrite delete_insert_id; [done|].
  destruct (fl !! f) eqn:Hf; [|done]. by destruct Hex.
Qed.

Lemma body_spec size w :
  drawable size = true →
  body size w =
    match Os.open_error (filename size) w with
    | Some e => (Raise e, failed_body size None w)
    | None =>
        match Os.write_error (filename size) w with
        | Some (e, written, close_fails) =>
            (Raise e,
             failed_body size (left_by (filename size) w written close_fails) w)
        | None => (Ok tt, after_body size w)
        end
    end.
Proof.
  unfold drawable. rewrite !andb_true_iff, negb_true_iff, bool_decide_eq_true, Z.leb_le.
  intros [[Hsize Hlt] [im Him]].
  unfold after_body, failed_body, the_icon. rewrite Him.
  change (default empty_image (Some im)) with im.
  unfold icon in Him. unfold body.
  destruct w as [d f dn hw h t].
  erewrite bind_ok by (by apply Image_new_ok). world_simpl.
  erewrite bind_ok by (apply ImageDraw_Draw_ok; apply lookup_snoc_here).
  erewrite bind_ok; cycle 1.
  { rewrite (ImageDraw_ellipse_fill_only _ _ _ green) by reflexivity.
    eapply draw_ellipse_ok; [done.. | apply lookup_snoc_here | apply Him]. }
  world_simpl. cbn [draw_im]. rewrite insert_snoc_here.
  unfold mbind, M_bind, bind.
  erewrite Image_save_spec by apply lookup_snoc_here. world_simpl.
  change (Os.open_error (filename size) (mkWorld d f dn hw (h ++ [im]) t))
    with (Os.open_error (filename size) (mkWorld d f dn hw h t)).
  change (Os.write_error (filename size) (mkWorld d f dn hw (h ++ [im]) t))
    with (Os.write_error (filename size) (mkWorld d f dn hw h t)).
  destruct (Os.open_error (filename size) (mkWorld d f dn hw h t)); [done|].
  destruct (Os.write_error (filename size) (mkWorld d f dn hw h t))
    as [[[e written] close_fails]|]; [|done].
  change (left_by (filename size) (mkWorld d f dn hw (h ++ [im]) t) written close_fails)
    with (left_by (filename size) (mkWorld d f dn hw h t) written close_fails).
  by destruct (left_by (filename size) (mkWorld d f dn hw h t) written close_fails).
Qed.

(** ** Facts about the seven sizes, by evaluation *)

Lemma for_sizes (P : Z → bool) :
  forallb P sizes = true → ∀ size, size ∈ sizes → P size = true.
Proof.
  intros H size Hin. rewrite forallb_forall in H.
  apply H. by apply list_elem_of_In.
Qed.

Lemma drawable_sizes size : size ∈ sizes → drawable size = true.
Proof. apply (for_sizes drawable). vm_compute. reflexivity. Qed.

Lemma icon_sizes size : size ∈ sizes → icon size = Some (the_icon size).
Proof.
  intros Hin. apply drawable_sizes in Hin. unfold drawable in Hin.
  rewrite !andb_true_iff, bool_decide_eq_true in Hin.
  destruct Hin as [_ [im Him]]. unfold the_icon. by rewrite Him.
Qed.

Lemma split_filename size :
  size ∈ sizes → fst (Os.split (filename size)) = icon_dir.
Proof.
  intros Hin.
  apply (for_sizes (λ s, bool_decide (fst (Os.split (filename s)) = icon_dir))) in Hin.
  - by apply bool_decide_eq_true in Hin.
  - vm_compute. reflexivity.
Qed.

(** ** File names *)

Lemma string_length_app (a b : string) :
  String.length (a +:+ b) = (String.length a + String.length b)%nat.
Proof. induction a as [|c a IH]; simpl; [done | by rewrite IH]. Qed.

Lemma string_app_inv_tail (a b s : string) : a +:+ s = b +:+ s → a = b.
Proof.
  revert b. induction a as [|c a IH]; intros [|c' b] H.
  - done.
  - apply (f_equal String.length) in H.
    rewrite !string_length_app in H. simpl in H. lia.
  - apply (f_equal String.length) in H.
    rewrite !string_length_app in H. simpl in H. lia.
  - injection H as -> H. f_equal. by apply IH.
Qed.

Lemma to_int_nonnil (z : Z) :
  Z.to_int z ≠ Decimal.Pos Decimal.Nil ∧ Z.to_int z ≠ Decimal.Neg Decimal.Nil.
Proof.
  destruct z as [|p|p]; simpl; split; try discriminate;
    intros [= H]; by apply DecimalPos.Unsigned.to_uint_nonnil in H.
Qed.

Lemma str_inj (a b : Z) : Py.str a = Py.str b → a = b.
Proof.
  unfold Py.str. intros H. apply DecimalZ.to_int_inj.
  apply (f_equal NilZero.int_of_string) in H.
  rewrite !NilZero.isi in H by apply to_int_nonnil. congruence.
Qed.

Lemma filename_inj (a b : Z) : filename a = filename b → a = b.
Proof.
  unfold filename. intros H.
  apply (inj (String.app icon_dir)) in H.
  apply (inj (String.app "/icon_")) in H.
  apply string_app_inv_tail in H. by apply str_inj.
Qed.

Lemma filename_not_in (n : Z) (l : list Z) : n ∉ l → filename n ∉ filename <$> l.
Proof.
  intros Hn Hin. apply list_elem_of_fmap in Hin as (m & Heq & Hm).
  apply filename_inj in Heq. by subst.
Qed.

(** ** [os.makedirs] *)

Lemma adds_dirs_refl w : adds_dirs w w.
Proof. by repeat split. Qed.

Lemma adds_dirs_trans w1 w2 w3 : adds_dirs w1 w2 → adds_dirs w2 w3 → adds_dirs w1 w3.
Proof.
  intros (Hd & Hf & Hn & Hh & Ht) (Hd' & Hf' & Hn' & Hh' & Ht').
  repeat split; [by etrans | congruence..].
Qed.

Lemma mkdir_adds p w : adds_dirs w (snd (Os.mkdir p w)).
Proof.
  unfold Os.mkdir.
  destruct (Os.parent_error p w); [apply adds_dirs_refl|].
  destruct (Os.exists_ p w); [apply adds_dirs_refl|].
  case_bool_decide; [apply adds_dirs_refl|].
  repeat split; simpl. set_solver.
Qed.

Lemma mkdir_ok p w w' : Os.mkdir p w = (Ok tt, w') → p ∈ dirs w'.
Proof.
  unfold Os.mkdir.
  destruct (Os.parent_error p w); [done|].
  destruct (Os.exists_ p w); [done|].
  case_bool_decide; [done|].
  intros [= <-]. simpl. set_solver.
Qed.

Lemma mkdir_no_hang p w : fst (Os.mkdir p w) ≠ Hang.
Proof.
  unfold Os.mkdir.
  destruct (Os.parent_error p w); [done|].
  destruct (Os.exists_ p w); [done|].
  by case_bool_decide.
Qed.

Lemma mkdir_last_adds p ok w : adds_dirs w (snd (Os.mkdir_last p ok w)).
Proof.
  unfold Os.mkdir_last. pose proof (mkdir_adds p w) as H.
  destruct (Os.mkdir p w) as [[[]|e|] w1]; simpl in *; try done.
  by destruct (negb ok || negb (Os.isdir p w1)).
Qed.

Lemma mkdir_last_ok p w w' : Os.mkdir_last p true w = (Ok tt, w') → p ∈ dirs w'.
Proof.
  unfold Os.mkdir_last.
  destruct (Os.mkdir p w) as [[[]|e|] w1] eqn:Hmk.
  - intros [= <-]. by eapply mkdir_ok.
  - simpl. unfold Os.isdir. case_bool_decide; [|done]. by intros [= <-].
  - done.
Qed.

Lemma mkdir_last_no_hang p ok w : fst (Os.mkdir_last p ok w) ≠ Hang.
Proof.
  unfold Os.mkdir_last. pose proof (mkdir_no_hang p w) as H.
  destruct (Os.mkdir p w) as [[[]|e|] w1]; simpl in *; try done.
  by destruct (negb ok || negb (Os.isdir p w1)).
Qed.

Lemma try_pass_snd e m w : snd (try_pass e m w) = snd (m w).
Proof.
  unfold try_pass. destruct (m w) as [[[]|e'|] w1]; try done.
  by destruct (decide (e' = e)).
Qed.

Lemma try_pass_no_hang e m w : fst (m w) ≠ Hang → fst (try_pass e m w) ≠ Hang.
Proof.
  unfold try_pass. destruct (m w) as [[[]|e'|] w1]; try done.
  by destruct (decide (e' = e)).
Qed.

Lemma makedirs_rec_adds fuel name ok w :
  adds_dirs w (snd (Os.makedirs_rec fuel name ok w)).
Proof.
  revert name w. induction fuel as [|fuel IH]; intros name w; [apply adds_dirs_refl|].
  cbn [Os.makedirs_rec].
  destruct (_ && _); [|apply mkdir_last_adds].
  unfold mbind, M_bind, bind.
  pose proof (IH (fst (Os.head_tail name)) w) as H1.
  rewrite <- (try_pass_snd FileExistsError) in H1.
  destruct (try_pass _ _ w) as [[[]|e|] w1]; simpl in H1; try done.
  case_bool_decide; [done|].
  eapply adds_dirs_trans; [exact H1 | apply mkdir_last_adds].
Qed.

Lemma makedirs_rec_ok fuel name w w' :
  snd (Os.head_tail name) ≠ "."%string →
  Os.makedirs_rec fuel name true w = (Ok tt, w') → name ∈ dirs w'.
Proof.
  intros Hdot. destruct fuel as [|fuel]; [done|].
  cbn [Os.makedirs_rec].
  destruct (_ && _); [|apply mkdir_last_ok].
  unfold mbind, M_bind, bind.
  destruct (try_pass _ _ w) as [[[]|e|] w1]; try done.
  rewrite bool_decide_eq_false_2 by done. apply mkdir_last_ok.
Qed.

(** The recursion of [makedirs] is on a strictly shorter path, so the
    fuel is never used up. *)
Lemma rstrip_length s : (String.length (Os.rstrip s) ≤ String.length s)%nat.
Proof.
  induction s as [|c s IH]; simpl; [done|].
  destruct (Os.rstrip s); [destruct (Os.is_slash c)|]; simpl in *; lia.
Qed.

Lemma cut_length s :
  (String.length (fst (Os.cut s)) + String.length (snd (Os.cut s))
   = String.length s)%nat.
Proof.
  induction s as [|c s IH]; simpl; [done|].
  destruct (Os.cut s) as [h t]; simpl in *.
  destruct h; [destruct (Os.is_slash c)|]; simpl in *; lia.
Qed.

Lemma split_length p :
  (String.length (fst (Os.split p)) + String.length (snd (Os.split p))
   ≤ String.length p)%nat.
Proof.
  unfold Os.split. pose proof (cut_length p) as Hc.
  destruct (Os.cut p) as [h t]; simpl in *.
  pose proof (rstrip_length h) as Hr.
  destruct (Os.rstrip h); simpl in *; lia.
Qed.

Lemma head_tail_length name :
  snd (Os.head_tail name) ≠ ""%string →
  (String.length (fst (Os.head_tail name)) < String.length name)%nat.
Proof.
  unfold Os.head_tail. pose proof (split_length name) as H1.
  destruct (snd (Os.split name)) eqn:Ht.
  - pose proof (split_length (fst (Os.split name))) as H2.
    intros Hne. destruct (snd (Os.split (fst (Os.split name)))); [done|].
    simpl in *. lia.
  - intros _. simpl in *. lia.
Qed.

Lemma makedirs_rec_no_hang fuel name ok w :
  (String.length name < fuel)%nat →
  fst (Os.makedirs_rec fuel name ok w) ≠ Hang.
Proof.
  revert name w. induction fuel as [|fuel IH]; intros name w Hlen; [lia|].
  cbn [Os.makedirs_rec].
  destruct (_ && _) eqn:Hc; [|apply mkdir_last_no_hang].
  rewrite !andb_true_iff, !negb_true_iff in Hc. destruct Hc as [[_ Ht] _].
  apply bool_decide_eq_false in Ht.
  pose proof (head_tail_length name Ht) as Hlt.
  unfold mbind, M_bind, bind.
  pose proof (try_pass_no_hang FileExistsError
                (Os.makedirs_rec fuel (fst (Os.head_tail name)) ok) w) as Hh.
  destruct (try_pass _ _ w) as [[[]|e|] w1]; simpl in *; try done.
  - case_bool_decide; [done | apply mkdir_last_no_hang].
  - apply Hh. apply IH. lia.
Qed.

Lemma icon_dir_tail : snd (Os.head_tail icon_dir) ≠ "."%string.
Proof. vm_compute. discriminate. Qed.

(** The call [os.makedirs(icon_dir, exist_ok=True)] of the script: it
    only adds directories; when it returns, the directory exists and the
    call is on the trace; it never hangs. *)
Lemma makedirs_spec w :
  let r := fst (Os.makedirs icon_dir true w) in
  let w' := snd (Os.makedirs icon_dir true w) in
  dirs w ⊆ dirs w' ∧ files w' = files w ∧ denied w' = denied w ∧ heap w' = heap w
  ∧ r ≠ Hang
  ∧ match r with
    | Ok _ => icon_dir ∈ dirs w' ∧ trace w' = trace w ++ [EvMakedirs icon_dir]
    | _ => trace w' = trace w
    end.
Proof.
  unfold Os.makedirs, mbind, M_bind, bind.
  pose proof (makedirs_rec_adds (S (String.length icon_dir)) icon_dir true w)
    as (Hd & Hf & Hn & Hh & Ht).
  pose proof (makedirs_rec_no_hang (S (String.length icon_dir)) icon_dir true w
                ltac:(lia)) as Hhang.
  pose proof (makedirs_rec_ok (S (String.length icon_dir)) icon_dir w) as Hok.
  destruct (Os.makedirs_rec _ icon_dir true w) as [[[]|e|] w1]; simpl in *.
  - repeat split; try done.
    + by apply Hok; [apply icon_dir_tail|].
    + by rewrite Ht.
  - by repeat split.
  - done.
Qed.

(** ** The loop *)

Lemma save_blocked size w :
  size ∈ sizes → icon_dir ∈ dirs w →
  match blocked (filename size) w with
  | None =>
      Os.open_error (filename size) w = None
      ∧ Os.write_error (filename size) w = None
  | Some e =>
      (Os.open_error (filename size) w = Some e
       ∧ partial (filename size) w = None)
      ∨ (Os.open_error (filename size) w = None
         ∧ ∃ written close_fails,
             Os.write_error (filename size) w = Some (e, written, close_fails)
             ∧ partial (filename size) w
               = left_by (filename size) w written close_fails)
  end.
Proof.
  intros Hin Hdir.
  assert (Hpar : Os.parent_error (filename size) w = None).
  { unfold Os.parent_error. rewrite (split_filename size Hin).
    rewrite bool_decide_eq_false_2 by discriminate.
    unfold Os.isdir. by rewrite bool_decide_eq_true_2. }
  unfold Os.open_error, blocked, partial, Os.write_error, Os.create_refusal.
  rewrite Hpar.
  destruct (Os.isdir (filename size) w); [by left|].
  case_bool_decide; [|done].
  destruct (how w !! filename size) as [[n|n written close_fails]|].
  - by left.
  - right. split; [done|]. by exists written, close_fails.
  - by left.
Qed.

Lemma blocked_None f w :
  blocked f w = None ↔ (f ∉ dirs w) ∧ (f ∉ denied w).
Proof.
  unfold blocked, Os.isdir. repeat case_bool_decide; split; try done; tauto.
Qed.

Lemma loop_step size l w :
  size ∈ sizes → icon_dir ∈ dirs w →
  loop_spec (size :: l) w =
    match blocked (filename size) w with
    | None => loop_spec l (after_body size w)
    | Some e => (Raise e, failed_body size (partial (filename size) w) w)
    end.
Proof.
  intros Hin Hdir. cbn [loop_spec].
  pose proof (save_blocked size w Hin Hdir) as H.
  destruct (blocked (filename size) w) as [e|].
  - destruct H as [[-> ->] | (-> & written & close_fails & -> & ->)]; done.
  - by destruct H as [-> ->].
Qed.

Lemma for_body l w :
  Forall (λ size, size ∈ sizes) l → for_ l body w = loop_spec l w.
Proof.
  intros Hl. revert w. induction Hl as [|size l Hin Hl IH]; intros w; [done|].
  cbn [for_ loop_spec]. unfold mbind, M_bind, bind.
  rewrite (body_spec size w (drawable_sizes size Hin)).
  destruct (Os.open_error (filename size) w); [done|].
  destruct (Os.write_error (filename size) w) as [[[e written] close_fails]|];
    [done | apply IH].
Qed.

Lemma sizes_in_sizes : Forall (λ size, size ∈ sizes) sizes.
Proof. by apply Forall_forall. Qed.

(** The script, as its two possible points of failure decide it. *)
Lemma main_spec w :
  main w =
    match Os.makedirs icon_dir true w with
    | (Ok _, w1) =>
        match loop_spec sizes w1 with
        | (Ok _, w2) => (Ok tt, log (EvPrint done_line) w2)
        | r => r
        end
    | (Raise e, w1) => (Raise e, w1)
    | (Hang, w1) => (Hang, w1)
    end.
Proof.
  unfold main, mbind, M_bind, bind.
  destruct (Os.makedirs icon_dir true w) as [[[]|e|] w1]; try done.
  rewrite (for_body sizes w1 sizes_in_sizes).
  by destruct (loop_spec sizes w1) as [[[]|e|] w2].
Qed.

Lemma run_bodies_snoc l size w :
  run_bodies (l ++ [size]) w = after_body size (run_bodies l w).
Proof. unfold run_bodies. by rewrite foldl_app. Qed.

Lemma run_bodies_frame l w :
  dirs (run_bodies l w) = dirs w ∧ denied (run_bodies l w) = denied w
  ∧ heap (run_bodies l w) = heap w ++ (the_icon <$> l)
  ∧ trace (run_bodies l w) = trace w ++ (l ≫= body_events).
Proof.
  induction l as [|size l IH] using rev_ind.
  - simpl. by rewrite !app_nil_r.
  - rewrite run_bodies_snoc. destruct IH as (Hd & Hn & Hh & Ht).
    unfold after_body. world_simpl.
    rewrite Hh, Ht, fmap_app, bind_app. simpl.
    by rewrite <- !app_assoc.
Qed.

Lemma run_bodies_other l w p :
  p ∉ filename <$> l → files (run_bodies l w) !! p = files w !! p.
Proof.
  induction l as [|size l IH] using rev_ind; [done|].
  rewrite run_bodies_snoc, fmap_app, not_elem_of_app. intros [Hl Hp].
  unfold after_body. world_simpl.
  rewrite lookup_insert_ne by set_solver. by apply IH.
Qed.

Lemma run_bodies_written l w size :
  size ∈ l → files (run_bodies l w) !! filename size = Some (PNG (the_icon size)).
Proof.
  induction l as [|s l IH] using rev_ind; [by intros ?%elem_of_nil|].
  rewrite run_bodies_snoc. intros Hin.
  unfold after_body. world_simpl.
  destruct (decide (s = size)) as [->|Hne].
  - by rewrite lookup_insert_eq.
  - rewrite lookup_insert_ne by (intros ?%filename_inj; done).
    apply IH. set_solver.
Qed.

Lemma blocked_after size f w : blocked f (after_body size w) = blocked f w.
Proof. reflexivity. Qed.

Lemma partial_after size f w :
  f ≠ filename size → partial f (after_body size w) = partial f w.
Proof.
  intros Hne. unfold partial, left_by, Os.exists_, Os.isdir, Os.write_error, after_body.
  world_simpl. by rewrite lookup_insert_ne.
Qed.

Lemma partial_run_bodies l f w :
  f ∉ filename <$> l → partial f (run_bodies l w) = partial f w.
Proof.
  induction l as [|size l IH] using rev_ind; [done|].
  rewrite run_bodies_snoc, fmap_app, not_elem_of_app. intros [Hl Hp].
  rewrite partial_after by set_solver. by apply IH.
Qed.

Lemma blocked_run_bodies l f w : blocked f (run_bodies l w) = blocked f w.
Proof.
  induction l as [|size l IH] using rev_ind; [done|].
  by rewrite run_bodies_snoc, blocked_after.
Qed.

Lemma loop_ok l w :
  Forall (λ size, size ∈ sizes) l → icon_dir ∈ dirs w →
  (∀ size, size ∈ l → blocked (filename size) w = None) →
  loop_spec l w = (Ok tt, run_bodies l w).
Proof.
  intros Hl. revert w. induction Hl as [|size l Hin Hl IH]; intros w Hdir Hfree; [done|].
  rewrite loop_step, Hfree by (done || set_solver).
  rewrite IH; [done | done |].
  intros s Hs. rewrite blocked_after. apply Hfree. set_solver.
Qed.

Lemma loop_fail pre size post e w :
  Forall (λ size, size ∈ sizes) (pre ++ size :: post) → icon_dir ∈ dirs w →
  (∀ s, s ∈ pre → blocked (filename s) w = None) →
  blocked (filename size) w = Some e →
  loop_spec (pre ++ size :: post) w = (Raise e, stopped pre size w).
Proof.
  revert w. induction pre as [|s pre IH]; intros w Hl Hdir Hfree Hblk.
  - cbn [app]. apply Forall_cons in Hl as [Hin _].
    by rewrite loop_step, Hblk.
  - cbn [app]. apply Forall_cons in Hl as [Hin Hl].
    rewrite loop_step, Hfree by (done || set_solver).
    rewrite IH; [done | done | done | |].
    + intros s' Hs'. rewrite blocked_after. apply Hfree. set_solver.
    + by rewrite blocked_after.
Qed.

(** Either no path is blocked, or there is a first one that is. *)
Lemma first_blocked l w :
  (∀ size, size ∈ l → blocked (filename size) w = None)
  ∨ ∃ pre size post e,
      l = pre ++ size :: post
      ∧ (∀ s, s ∈ pre → blocked (filename s) w = None)
      ∧ blocked (filename size) w = Some e.
Proof.
  induction l as [|s l IH].
  - left. by intros ? ?%elem_of_nil.
  - destruct (blocked (filename s) w) as [e|] eqn:Hs.
    + right. exists [], s, l, e. split_and!; [done | by intros ? ?%elem_of_nil | done].
    + destruct IH as [Hall | (pre & size & post & e & -> & Hpre & Hsz)].
      * left. intros size [->|Hin]%elem_of_cons; auto.
      * right. exists (s :: pre), size, post, e. split_and!; [done | | done].
        intros s' [->|Hin]%elem_of_cons; auto.
Qed.

(** ** Drawing keeps the shape of the buffer *)

Lemma ImagingFill_shaped mode w h ink :
  shaped mode w h (Pillow.ImagingFill mode w h ink).
Proof.
  unfold shaped, Pillow.ImagingFill. simpl. split_and!; try done.
  - by rewrite length_replicate.
  - apply Forall_replicate. by rewrite length_replicate.
Qed.

Lemma fill_span_length x0 x1 ink row :
  0 ≤ x0 → x0 ≤ x1 → x1 < Z.of_nat (List.length row) →
  List.length (Pillow.fill_span x0 x1 ink row) = List.length row.
Proof.
  intros H0 H1 H2. unfold Pillow.fill_span.
  rewrite !length_app, length_take, length_replicate, length_drop. lia.
Qed.

Lemma hline32_shaped mode w h im x0 y0 x1 ink :
  shaped mode w h im → shaped mode w h (Pillow.hline32 im x0 y0 x1 ink).
Proof.
  intros (Hm & Hw & Hh & Hrows & Hrow). unfold Pillow.hline32.
  destruct (_ && _); [|done].
  destruct (Pillow.xsize im <=? x0) eqn:E0; [done|].
  destruct (x1 <? 0) eqn:E1; [done|].
  match goal with |- context [if ?a <? ?b then im else _] =>
    destruct (a <? b) eqn:E2 end; [done|].
  unfold shaped; cbn [Pillow.im_mode Pillow.xsize Pillow.ysize Pillow.image32].
  split_and!; try done.
  - by rewrite length_alter.
  - apply Forall_alter; [done|]. intros row Hlook.
    assert (Hlen : List.length row = Z.to_nat w).
    { eapply (proj1 (Forall_forall _ _) Hrow), list_elem_of_lookup_2, Hlook. }
    rewrite fill_span_length; [done | ..].
    + destruct (x0 <? 0) eqn:E3; lia.
    + lia.
    + rewrite Hlen. destruct (Pillow.xsize im <=? x1) eqn:E4; lia.
Qed.

Lemma ellipse_loop_shaped mode w h fuel qfuel st im x0 y0 a b ink im' :
  shaped mode w h im →
  Pillow.ellipse_loop fuel qfuel st im x0 y0 a b ink = Some im' →
  shaped mode w h im'.
Proof.
  revert st im. induction fuel as [|fuel IH]; intros st im Him; [done|].
  cbn [Pillow.ellipse_loop].
  destruct (Pillow.ellipse_next qfuel st) as [[[[[X0 Y] X1]|] st']|]; simpl; [| |done].
  - apply IH. by apply hline32_shaped.
  - by intros [= <-].
Qed.

Lemma ImagingDrawEllipse_shaped mode w h im x0 y0 x1 y1 ink fill width im' :
  shaped mode w h im →
  Pillow.ImagingDrawEllipse im x0 y0 x1 y1 ink fill width = Some im' →
  shaped mode w h im'.
Proof.
  intros Him. unfold Pillow.ImagingDrawEllipse.
  destruct (_ || _); [by intros [= <-]|].
  by apply ellipse_loop_shaped.
Qed.

Lemma icon_shaped size im : icon size = Some im → shaped "RGBA" size size im.
Proof.
  unfold icon. apply ImagingDrawEllipse_shaped, ImagingFill_shaped.
Qed.

(** ** The three ways a run can go *)

Lemma main_cases w :
  (∃ e, fst (Os.makedirs icon_dir true w) = Raise e
        ∧ main w = (Raise e, prepared w))
  ∨ (fst (Os.makedirs icon_dir true w) = Ok tt
     ∧ ∃ pre size post e,
         sizes = pre ++ size :: post
         ∧ (∀ s, s ∈ pre → blocked (filename s) (prepared w) = None)
         ∧ blocked (filename size) (prepared w) = Some e
         ∧ main w = (Raise e, stopped pre size (prepared w)))
  ∨ (fst (Os.makedirs icon_dir true w) = Ok tt
     ∧ (∀ s, s ∈ sizes → blocked (filename s) (prepared w) = None)
     ∧ main w = (Ok tt, log (EvPrint done_line) (run_bodies sizes (prepared w)))).
Proof.
  rewrite main_spec. unfold prepared.
  pose proof (makedirs_spec w) as (_ & _ & _ & _ & Hhang & Hr). cbn zeta in Hhang, Hr.
  destruct (Os.makedirs icon_dir true w) as [[[]|e|] w1]; cbn [fst snd] in *.
  - destruct Hr as [Hdir _].
    destruct (first_blocked sizes w1) as [Hall | (pre & size & post & e & Hsz & Hpre & Hblk)].
    + right; right. split; [done|]. split; [done|].
      by rewrite (loop_ok sizes w1 sizes_in_sizes Hdir Hall).
    + right; left. split; [done|]. exists pre, size, post, e.
      split_and!; try done.
      rewrite Hsz. rewrite (loop_fail pre size post e w1); try done.
      rewrite <- Hsz. apply sizes_in_sizes.
  - left. by exists e.
  - done.
Qed.

(** A run that returns normally went through every size. *)
Lemma main_ok w :
  outcome w = Ok tt →
  fst (Os.makedirs icon_dir true w) = Ok tt
  ∧ (∀ s, s ∈ sizes → blocked (filename s) (prepared w) = None)
  ∧ final w = log (EvPrint done_line) (run_bodies sizes (prepared w)).
Proof.
  unfold outcome, final. intros Hok.
  destruct (main_cases w) as [(e & _ & Hm) | [(_ & pre & size & post & e & _ & _ & _ & Hm)
                                             | (Hmk & Hall & Hm)]];
    rewrite Hm in Hok |- *; cbn [fst snd] in *; try done.
Qed.

Lemma prepared_spec w :
  dirs w ⊆ dirs (prepared w) ∧ files (prepared w) = files w
  ∧ denied (prepared w) = denied w ∧ heap (prepared w) = heap w.
Proof. pose proof (makedirs_spec w) as H. cbn zeta in H. unfold prepared. tauto. Qed.

Lemma prepared_ok w :
  fst (Os.makedirs icon_dir true w) = Ok tt →
  icon_dir ∈ dirs (prepared w) ∧ trace (prepared w) = trace w ++ [EvMakedirs icon_dir].
Proof.
  pose proof (makedirs_spec w) as (_ & _ & _ & _ & _ & H). cbn zeta in H.
  unfold prepared. intros Hok. by rewrite Hok in H.
Qed.

Lemma prepared_failed w :
  fst (Os.makedirs icon_dir true w) ≠ Ok tt → trace (prepared w) = trace w.
Proof.
  pose proof (makedirs_spec w) as (_ & _ & _ & _ & _ & H). cbn zeta in H.
  unfold prepared. intros Hok.
  by destruct (fst (Os.makedirs icon_dir true w)) as [[]| |].
Qed.

Lemma printed_app t1 t2 : printed (t1 ++ t2) = printed t1 ++ printed t2.
Proof. apply omap_app. Qed.

Lemma saved_app t1 t2 : saved (t1 ++ t2) = saved t1 ++ saved t2.
Proof. apply omap_app. Qed.

Lemma printed_body_events l : printed (l ≫= body_events) = created <$> l.
Proof.
  induction l as [|s l IH]; [done|].
  by rewrite bind_cons, printed_app, IH.
Qed.

Lemma saved_body_events l : saved (l ≫= body_events) = filename <$> l.
Proof.
  induction l as [|s l IH]; [done|].
  by rewrite bind_cons, saved_app, IH.
Qed.

Lemma files_log e w : files (log e w) = files w.
Proof. reflexivity. Qed.

Lemma trace_log e w : trace (log e w) = trace w ++ [e].
Proof. reflexivity. Qed.

Lemma dirs_log e w : dirs (log e w) = dirs w.
Proof. reflexivity. Qed.

(** The file system and the trace after a run that returned normally. *)
Lemma final_ok w :
  outcome w = Ok tt →
  (∀ size, size ∈ sizes →
     files (final w) !! filename size = Some (PNG (the_icon size)))
  ∧ (∀ p, p ∉ filename <$> sizes → files (final w) !! p = files w !! p)
  ∧ trace (final w) =
      trace w ++ EvMakedirs icon_dir :: (sizes ≫= body_events) ++ [EvPrint done_line].
Proof.
  intros Hok. apply main_ok in Hok as (Hmk & Hfree & Hfin).
  destruct (prepared_spec w) as (_ & Hf & _ & _).
  destruct (prepared_ok w Hmk) as [_ Ht].
  destruct (run_bodies_frame sizes (prepared w)) as (_ & _ & _ & Htr).
  rewrite Hfin, files_log, trace_log. split_and!.
  - intros size Hin. apply run_bodies_written, Hin.
  - intros p Hp. rewrite run_bodies_other, Hf; [reflexivity | exact Hp].
  - rewrite Htr, Ht, <- !app_assoc. reflexivity.
Qed.

Lemma sizes_nodup : NoDup sizes.
Proof. compute_done. Qed.

(** ** C1: one PNG per size *)

(** C1.  When the run returns normally, every size of [sizes] has its
    file [icon_dir/icon_<size>.png], a PNG of an RGBA image of exactly
    [size] rows of [size] pixels; the paths saved are those seven, once
    each and in order; and no other path of the file system changed, in
    particular none named after a size that is not listed. *)
Theorem icons_written w :
  outcome w = Ok tt →
  (∀ size, size ∈ sizes →
     filename size = icon_dir +:+ "/icon_" +:+ Py.str size +:+ ".png"
     ∧ fst (Os.split (filename size)) = icon_dir
     ∧ ∃ im, files (final w) !! filename size = Some (PNG im)
             ∧ shaped "RGBA" size size im)
  ∧ saved (trace (final w)) = saved (trace w) ++ (filename <$> sizes)
  ∧ NoDup (filename <$> sizes)
  ∧ (∀ n, n ∉ sizes → files (final w) !! filename n = files w !! filename n)
  ∧ (∀ p, p ∉ filename <$> sizes → files (final w) !! p = files w !! p).
Proof.
  intros Hok. destruct (final_ok w Hok) as (Hwr & Hother & Htr).
  split_and!.
  - intros size Hin. split; [reflexivity|]. split; [apply split_filename, Hin|].
    exists (the_icon size). split; [apply Hwr, Hin|].
    apply icon_shaped, icon_sizes, Hin.
  - rewrite Htr, saved_app. f_equal.
  - apply NoDup_fmap_2; [intros a b; apply filename_inj | apply sizes_nodup].
  - intros n Hn. apply Hother, filename_not_in, Hn.
  - exact Hother.
Qed.

Lemma icons_written_witness :
  outcome empty_world = Ok tt
  ∧ saved (trace (final empty_world)) = filename <$> sizes.
Proof.
  assert (H : outcome empty_world = Ok tt) by (vm_compute; reflexivity).
  split; [exact H|].
  exact (proj1 (proj2 (icons_written empty_world H))).
Defined.

(** ** C10: the order of the actions *)

Lemma makedirs_calls_app t1 t2 :
  makedirs_calls (t1 ++ t2) = makedirs_calls t1 ++ makedirs_calls t2.
Proof. apply omap_app. Qed.

Lemma makedirs_calls_body_events l : makedirs_calls (l ≫= body_events) = [].
Proof.
  induction l as [|s l IH]; [done|].
  by rewrite bind_cons, makedirs_calls_app, IH.
Qed.

Lemma sizes_sorted : StronglySorted Z.lt sizes.
Proof. unfold sizes. repeat constructor; lia. Qed.

Lemma run_bodies_app l1 l2 w :
  run_bodies (l1 ++ l2) w = run_bodies l2 (run_bodies l1 w).
Proof. unfold run_bodies. by rewrite foldl_app. Qed.

(** The loop over a list of sizes none of which is blocked. *)
Lemma for_ok l w :
  (∀ size, size ∈ l → size ∈ sizes) → icon_dir ∈ dirs w →
  (∀ size, size ∈ l → blocked (filename size) w = None) →
  for_ l body w = (Ok tt, run_bodies l w).
Proof.
  intros Hl Hdir Hfree. apply Forall_forall in Hl.
  rewrite (for_body l w Hl). by apply loop_ok.
Qed.

(** C10.  In a run that returns normally the actions are, in this order:
    the one call of [os.makedirs] on the output directory, then for each
    size in ascending order the save of its file followed by its
    "Created" line, then the completion line.  The directory exists from
    that first action on, and the loop creates no directory.  The file
    system follows the same order: wherever the list of sizes is cut in
    two, the run passes, after [os.makedirs] and the iterations of the
    sizes before the cut, through a state where the directory exists,
    the file of each size before the cut holds its image, the one it
    still holds at the end, and the path of each size after the cut
    holds what it held before the run; with nothing before the cut, this
    is the state between the creation of the directory and the first
    write. *)
Theorem actions_in_order w :
  outcome w = Ok tt →
  trace (final w) =
    trace w ++ EvMakedirs icon_dir
      :: (sizes ≫= λ size, [EvSave (filename size);
                            EvPrint ("Created " +:+ filename size)])
      ++ [EvPrint "All icons generated successfully!"]
  ∧ StronglySorted Z.lt sizes
  ∧ makedirs_calls (trace (final w)) = makedirs_calls (trace w) ++ [icon_dir]
  ∧ icon_dir ∈ dirs (prepared w)
  ∧ dirs (final w) = dirs (prepared w)
  ∧ ∀ pre post, sizes = pre ++ post →
      ∃ wm,
        (Os.makedirs icon_dir true ;; for_ pre body) w = (Ok tt, wm)
        ∧ (for_ post body ;; print "All icons generated successfully!") wm
          = (Ok tt, final w)
        ∧ icon_dir ∈ dirs wm
        ∧ trace wm =
            trace w ++ EvMakedirs icon_dir
              :: (pre ≫= λ size, [EvSave (filename size);
                                  EvPrint ("Created " +:+ filename size)])
        ∧ (∀ s, s ∈ pre →
             files wm !! filename s = Some (PNG (the_icon s))
             ∧ files (final w) !! filename s = files wm !! filename s)
        ∧ (∀ s, s ∈ post → files wm !! filename s = files w !! filename s).
Proof.
  intros Hok. destruct (final_ok w Hok) as (Hwr & _ & Htr).
  apply main_ok in Hok as (Hmk & Hfree & Hfin).
  destruct (run_bodies_frame sizes (prepared w)) as (Hd & _).
  split_and!.
  - exact Htr.
  - exact sizes_sorted.
  - rewrite Htr, makedirs_calls_app. f_equal.
  - apply prepared_ok, Hmk.
  - rewrite Hfin, dirs_log. exact Hd.
  - intros pre post Hsz.
    destruct (prepared_ok w Hmk) as [Hdir Hpt].
    destruct (prepared_spec w) as (_ & Hfp & _ & _).
    assert (Hpre : ∀ s, s ∈ pre → s ∈ sizes)
      by (intros s Hs; rewrite Hsz; apply elem_of_app; by left).
    assert (Hpost : ∀ s, s ∈ post → s ∈ sizes)
      by (intros s Hs; rewrite Hsz; apply elem_of_app; by right).
    pose proof sizes_nodup as Hnd. rewrite Hsz in Hnd.
    apply NoDup_app in Hnd as (_ & Hdisj & _).
    destruct (run_bodies_frame pre (prepared w)) as (Hdm & _ & _ & Htm).
    exists (run_bodies pre (prepared w)). split_and!.
    + unfold mbind, M_bind, bind. unfold prepared in *.
      destruct (Os.makedirs icon_dir true w) as [r w1]. cbn [fst snd] in *. subst r.
      apply for_ok; [done | done |]. intros s Hs. by apply Hfree, Hpre.
    + unfold mbind, M_bind, bind.
      rewrite (for_ok post (run_bodies pre (prepared w))); [| done | by rewrite Hdm |].
      * unfold print, modify. rewrite Hfin, Hsz, run_bodies_app. reflexivity.
      * intros s Hs. rewrite blocked_run_bodies. by apply Hfree, Hpost.
    + by rewrite Hdm.
    + rewrite Htm, Hpt, <- app_assoc. reflexivity.
    + intros s Hs. split; [by apply run_bodies_written|].
      rewrite (Hwr s (Hpre s Hs)). symmetry. by apply run_bodies_written.
    + intros s Hs. rewrite run_bodies_other, Hfp; [done|].
      intros (s' & Heq%filename_inj & Hs')%list_elem_of_fmap. subst s'.
      by apply (Hdisj s).
Qed.

Lemma actions_in_order_witness :
  outcome empty_world = Ok tt
  ∧ makedirs_calls (trace (final empty_world)) = [icon_dir].
Proof.
  assert (H : outcome empty_world = Ok tt) by (vm_compute; reflexivity).
  split; [exact H|].
  exact (proj1 (proj2 (proj2 (actions_in_order empty_world H)))).
Defined.

(** ** Runs that fail *)

Lemma main_dir_fail w e :
  fst (Os.makedirs icon_dir true w) = Raise e → main w = (Raise e, prepared w).
Proof.
  intros H. rewrite main_spec. unfold prepared.
  destruct (Os.makedirs icon_dir true w) as [r w1]. cbn [fst snd] in *. by subst r.
Qed.

Lemma main_loop_fail w pre size post e :
  fst (Os.makedirs icon_dir true w) = Ok tt →
  sizes = pre ++ size :: post →
  (∀ s, s ∈ pre → blocked (filename s) (prepared w) = None) →
  blocked (filename size) (prepared w) = Some e →
  main w = (Raise e, stopped pre size (prepared w)).
Proof.
  intros Hmk Hsz Hpre Hblk.
  destruct (prepared_ok w Hmk) as [Hdir _].
  rewrite main_spec. unfold prepared in *.
  destruct (Os.makedirs icon_dir true w) as [r w1]. cbn [fst snd] in *. subst r.
  rewrite Hsz, (loop_fail pre size post e w1); [done | | done | done | done].
  rewrite <- Hsz. apply sizes_in_sizes.
Qed.

Lemma failed_body_spec size left w :
  dirs (failed_body size left w) = dirs w
  ∧ denied (failed_body size left w) = denied w
  ∧ heap (failed_body size left w) = heap w ++ [the_icon size]
  ∧ trace (failed_body size left w) = trace w
  ∧ (∀ p, p ≠ filename size → files (failed_body size left w) !! p = files w !! p)
  ∧ files (failed_body size left w) !! filename size
    = match left with
      | Some written => Some (Data written)
      | None => files w !! filename size
      end.
Proof.
  unfold failed_body. destruct left as [written|]; world_simpl; split_and!; try done.
  - intros p Hp. by rewrite lookup_insert_ne.
  - by rewrite lookup_insert_eq.
Qed.

Lemma stopped_spec pre size w :
  dirs (stopped pre size w) = dirs w
  ∧ (∀ p, p ≠ filename size →
          files (stopped pre size w) !! p = files (run_bodies pre w) !! p)
  ∧ trace (stopped pre size w) = trace w ++ (pre ≫= body_events).
Proof.
  destruct (run_bodies_frame pre w) as (Hd & _ & _ & Ht).
  unfold stopped. cbn zeta.
  destruct (failed_body_spec size (partial (filename size) (run_bodies pre w))
              (run_bodies pre w)) as (Hd' & _ & _ & Ht' & Hf' & _).
  by rewrite Hd', Ht', Hd, Ht.
Qed.

Lemma stopped_here pre size w :
  files (stopped pre size w) !! filename size
  = match partial (filename size) (run_bodies pre w) with
    | Some written => Some (Data written)
    | None => files (run_bodies pre w) !! filename size
    end.
Proof.
  unfold stopped. cbn zeta.
  by destruct (failed_body_spec size (partial (filename size) (run_bodies pre w))
                 (run_bodies pre w)) as (_ & _ & _ & _ & _ & ->).
Qed.

Lemma created_not_done size : created size ≠ done_line.
Proof. discriminate. Qed.

Lemma done_not_created (l : list Z) : done_line ∉ created <$> l.
Proof.
  intros (s & H & _)%list_elem_of_fmap. by apply (created_not_done s).
Qed.

(** ** C8: the console *)

(** C8.  Either the run returns normally, and then the lines printed are
    one "Created <path>" per file saved, in order, with the path of that
    file, followed by the completion line exactly once; or it does not,
    and then the lines printed are the "Created" lines of the sizes that
    were completed before the failure, a proper prefix of the sizes, and
    the completion line is not among them. *)
Theorem console_output w :
  (outcome w = Ok tt
   ∧ stdout (final w) =
       stdout w ++ ((λ size, "Created " +:+ filename size) <$> sizes)
         ++ ["All icons generated successfully!"%string]
   ∧ saved (trace (final w)) = saved (trace w) ++ (filename <$> sizes))
  ∨ (outcome w ≠ Ok tt
     ∧ ∃ pre post,
         sizes = pre ++ post ∧ post ≠ []
         ∧ stdout (final w) =
             stdout w ++ ((λ size, "Created " +:+ filename size) <$> pre)
         ∧ saved (trace (final w)) = saved (trace w) ++ (filename <$> pre)
         ∧ "All icons generated successfully!"%string
             ∉ (λ size, "Created " +:+ filename size) <$> pre).
Proof.
  unfold outcome, final, stdout.
  destruct (main_cases w) as [(e & Hmk & Hm) | [(Hmk & pre & size & post & e & Hsz & _ & _ & Hm)
                                               | (Hmk & _ & Hm)]];
    rewrite Hm; cbn [fst snd].
  - right. split; [done|]. exists [], sizes. split_and!; try done.
    + rewrite prepared_failed, app_nil_r; [done | by rewrite Hmk].
    + rewrite prepared_failed, app_nil_r; [done | by rewrite Hmk].
    + by intros ?%elem_of_nil.
  - right. split; [done|]. exists pre, (size :: post). split_and!; try done.
    + destruct (stopped_spec pre size (prepared w)) as (_ & _ & ->).
      destruct (prepared_ok w Hmk) as [_ ->].
      rewrite !printed_app, printed_body_events. cbn [printed omap].
      by rewrite app_nil_r.
    + destruct (stopped_spec pre size (prepared w)) as (_ & _ & ->).
      destruct (prepared_ok w Hmk) as [_ ->].
      rewrite !saved_app, saved_body_events. cbn [saved omap].
      by rewrite app_nil_r.
    + apply done_not_created.
  - left. split; [done|].
    destruct (run_bodies_frame sizes (prepared w)) as (_ & _ & _ & Ht).
    destruct (prepared_ok w Hmk) as [_ Hp].
    rewrite trace_log, Ht, Hp. split.
    + rewrite !printed_app, printed_body_events. cbn [printed omap].
      rewrite app_nil_r. by rewrite <- app_assoc.
    + rewrite !saved_app, saved_body_events. cbn [saved omap].
      by rewrite !app_nil_r.
Qed.

(** ** C3: a file system error ends the run *)

Lemma saves_blocked size w :
  size ∈ sizes → icon_dir ∈ dirs w → saves size w →
  blocked (filename size) w = None.
Proof.
  intros Hin Hdir [Ho Hw]. pose proof (save_blocked size w Hin Hdir) as H.
  destruct (blocked (filename size) w) as [e|]; [|done].
  destruct H as [[He _] | (_ & written & close_fails & Hw' & _)].
  - by rewrite Ho in He.
  - by rewrite Hw in Hw'.
Qed.

Lemma open_fails_blocked size w e :
  size ∈ sizes → icon_dir ∈ dirs w →
  Os.open_error (filename size) w = Some e →
  blocked (filename size) w = Some e ∧ partial (filename size) w = None.
Proof.
  intros Hin Hdir Ho. pose proof (save_blocked size w Hin Hdir) as H.
  destruct (blocked (filename size) w) as [e'|].
  - destruct H as [[He Hp] | (Hn & _)]; [|by rewrite Ho in Hn].
    rewrite Ho in He. by simplify_eq.
  - destruct H as [H _]. by rewrite Ho in H.
Qed.

Lemma write_fails_blocked size w e written close_fails :
  size ∈ sizes → icon_dir ∈ dirs w →
  Os.open_error (filename size) w = None →
  Os.write_error (filename size) w = Some (e, written, close_fails) →
  blocked (filename size) w = Some e
  ∧ partial (filename size) w = left_by (filename size) w written close_fails.
Proof.
  intros Hin Hdir Ho Hw. pose proof (save_blocked size w Hin Hdir) as H.
  destruct (blocked (filename size) w) as [e'|].
  - destruct H as [[He _] | (_ & written' & close_fails' & Hw' & Hp)];
      [by rewrite Ho in He|].
    rewrite Hw in Hw'. by simplify_eq.
  - destruct H as [_ H]. by rewrite Hw in H.
Qed.

Lemma split_sizes pre size post :
  sizes = pre ++ size :: post →
  (∀ s, s ∈ pre → s ∈ sizes) ∧ size ∈ sizes ∧ size ∉ pre.
Proof.
  intros Hsz. pose proof sizes_nodup as Hnd. rewrite Hsz in Hnd |- *.
  apply NoDup_app in Hnd as (_ & Hdisj & _). split_and!.
  - intros s Hs. apply elem_of_app. by left.
  - apply elem_of_app. right. apply list_elem_of_here.
  - intros Hin. apply (Hdisj size Hin). apply list_elem_of_here.
Qed.

Lemma open_not_dir f w : Os.open_error f w = None → f ∉ dirs w.
Proof.
  unfold Os.open_error, Os.isdir. destruct (Os.parent_error f w); [done|].
  by case_bool_decide.
Qed.

(** Whether a failed write leaves a file, in terms of the file system
    before the run. *)
Lemma left_by_prepared f w written close_fails :
  f ∉ dirs (prepared w) →
  left_by f (prepared w) written close_fails
  = if close_fails || bool_decide (is_Some (files w !! f)) then Some written else None.
Proof.
  intros Hnd. destruct (prepared_spec w) as (_ & Hfp & _ & _).
  unfold left_by, Os.exists_. rewrite Hfp.
  by rewrite (bool_decide_eq_false_2 (f ∈ dirs (prepared w))).
Qed.

(** The run that fails in the loop, as the sizes completed before and
    what the failing write left decide it. *)
Lemma loop_failure_final w pre size post e left :
  fst (Os.makedirs icon_dir true w) = Ok tt →
  sizes = pre ++ size :: post →
  (∀ s, s ∈ pre → blocked (filename s) (prepared w) = None) →
  blocked (filename size) (prepared w) = Some e →
  partial (filename size) (prepared w) = left →
  outcome w = Raise e
  ∧ (∀ s, s ∈ pre → files (final w) !! filename s = Some (PNG (the_icon s)))
  ∧ (∀ p, p ∉ filename <$> pre → p ≠ filename size →
          files (final w) !! p = files w !! p)
  ∧ files (final w) !! filename size
    = match left with
      | Some written => Some (Data written)
      | None => files w !! filename size
      end
  ∧ saved (trace (final w)) = saved (trace w) ++ (filename <$> pre)
  ∧ printed (trace (final w)) = printed (trace w) ++ (created <$> pre).
Proof.
  intros Hmk Hsz Hpre Hblk Hleft. unfold outcome, final.
  rewrite (main_loop_fail w pre size post e Hmk Hsz Hpre Hblk). cbn [fst snd].
  destruct (split_sizes pre size post Hsz) as (_ & _ & Hnot).
  destruct (stopped_spec pre size (prepared w)) as (_ & Hf & Ht).
  destruct (prepared_ok w Hmk) as [_ Hp].
  destruct (prepared_spec w) as (_ & Hfp & _ & _).
  split_and!.
  - done.
  - intros s Hs. rewrite Hf, run_bodies_written; [done | done |].
    intros Heq%filename_inj. by subst s.
  - intros p Hp1 Hp2. by rewrite Hf, run_bodies_other, Hfp.
  - rewrite stopped_here, partial_run_bodies, Hleft by (by apply filename_not_in).
    destruct left; [done|].
    rewrite run_bodies_other, Hfp; [done|]. by apply filename_not_in.
  - rewrite Ht, Hp, !saved_app, saved_body_events. cbn [saved omap].
    by rewrite app_nil_r.
  - rewrite Ht, Hp, !printed_app, printed_body_events. cbn [printed omap].
    by rewrite app_nil_r.
Qed.

(** C3, as amended.  When a file system error [e] occurs, in
    [os.makedirs], at the [open] of the file of some size or in the
    write that follows that [open], after the sizes [pre] were
    completed, the run ends with [e] uncaught; the files of the sizes in
    [pre] are in place with the images written for them; every path
    other than those and that of the failing size, in particular the
    path of every later size, holds what it held before the run; only
    the sizes in [pre] were saved and reported.  The path of the failing
    size holds what it held before when the error is met at [open] or
    in [os.makedirs].  When the write fails, the file has been created
    or truncated: it is left holding the bytes that reached it if it was
    there before the run or if closing it fails as well; otherwise
    [img.save] removes the file it had created. *)
Theorem failure_aborts w pre at_ e :
  fails_at w pre at_ e →
  outcome w = Raise e
  ∧ (∀ s, s ∈ pre → files (final w) !! filename s = Some (PNG (the_icon s)))
  ∧ match at_ with
    | InWrite size written close_fails =>
        (close_fails = true ∨ is_Some (files w !! filename size) →
           files (final w) !! filename size = Some (Data written))
        ∧ (close_fails = false → files w !! filename size = None →
           files (final w) !! filename size = None)
        ∧ (∀ p, p ∉ filename <$> pre → p ≠ filename size →
                files (final w) !! p = files w !! p)
        ∧ (∀ s, s ∉ pre → s ≠ size →
                files (final w) !! filename s = files w !! filename s)
    | InOpen _ | InMakedirs =>
        (∀ p, p ∉ filename <$> pre → files (final w) !! p = files w !! p)
        ∧ (∀ s, s ∉ pre → files (final w) !! filename s = files w !! filename s)
    end
  ∧ saved (trace (final w)) = saved (trace w) ++ (filename <$> pre)
  ∧ stdout (final w) = stdout w ++ ((λ s, "Created " +:+ filename s) <$> pre).
Proof.
  destruct at_ as [|size|size written close_fails]; cbn [fails_at].
  - intros [Hmk ->]. unfold outcome, final, stdout.
    rewrite (main_dir_fail w e Hmk). cbn [fst snd].
    rewrite prepared_failed by (by rewrite Hmk).
    destruct (prepared_spec w) as (_ & Hfp & _ & _).
    split_and!; try done.
    + by intros s ?%elem_of_nil.
    + intros p _. by rewrite Hfp.
    + intros s _. by rewrite Hfp.
    + by rewrite app_nil_r.
    + by rewrite app_nil_r.
  - intros (Hmk & [post Hsz] & Hpre & Ho).
    destruct (prepared_ok w Hmk) as [Hdir _].
    destruct (split_sizes pre size post Hsz) as (Hin & Hsize & _).
    destruct (open_fails_blocked size (prepared w) e Hsize Hdir Ho) as [Hblk Hpart].
    destruct (loop_failure_final w pre size post e None Hmk Hsz) as (H1 & H2 & H3 & H4 & H5 & H6);
      [by intros s Hs; apply saves_blocked; auto | done | done |].
    assert (Hother : ∀ p, p ∉ filename <$> pre → files (final w) !! p = files w !! p).
    { intros p Hp. destruct (decide (p = filename size)) as [->|Hne]; [done | by apply H3]. }
    split_and!; try done.
    intros s Hs. by apply Hother, filename_not_in.
  - intros (Hmk & [post Hsz] & Hpre & Ho & Hw).
    destruct (prepared_ok w Hmk) as [Hdir _].
    destruct (split_sizes pre size post Hsz) as (Hin & Hsize & _).
    destruct (write_fails_blocked size (prepared w) e written close_fails Hsize Hdir Ho Hw)
      as [Hblk Hpart].
    rewrite left_by_prepared in Hpart by (by eapply open_not_dir).
    destruct (loop_failure_final w pre size post e _ Hmk Hsz
                ltac:(by intros s Hs; apply saves_blocked; auto) Hblk Hpart)
      as (H1 & H2 & H3 & H4 & H5 & H6).
    split_and!; try done.
    + intros Hkept. rewrite H4.
      destruct Hkept as [-> | Hsome]; [done|].
      by rewrite bool_decide_eq_true_2, orb_true_r.
    + intros -> Hnone. rewrite H4.
      rewrite bool_decide_eq_false_2; [done|]. rewrite Hnone. by intros [? ?].
    + intros s Hs Hne. apply H3; [by apply filename_not_in|].
      intros Heq%filename_inj. done.
Qed.

Lemma failure_aborts_witness :
  fails_at full_world [16; 32] (InWrite 64 [] true) (OSError 28)
  ∧ outcome full_world = Raise (OSError 28).
Proof.
  assert (H : fails_at full_world [16; 32] (InWrite 64 [] true) (OSError 28)).
  { split; [vm_compute; reflexivity|]. split; [by exists [128; 256; 512; 1024]|]. split.
    - intros s Hs. apply elem_of_cons in Hs as [->|Hs]; [split; vm_compute; reflexivity|].
      apply elem_of_cons in Hs as [->|Hs]; [split; vm_compute; reflexivity|].
      by apply elem_of_nil in Hs.
    - split; vm_compute; reflexivity. }
  split; [exact H|].
  exact (proj1 (failure_aborts full_world [16; 32] (InWrite 64 [] true) (OSError 28) H)).
Defined.

(** The claim as it was stated fails on a full volume.  The error is met
    while the third size is processed, after its file was opened: an
    empty file is left for that size where there was none; and when the
    file of that size was there from an earlier run, it is left
    truncated. *)
Lemma failure_aborts_counterexample :
  (outcome full_world = Raise (OSError 28)
   ∧ saved (trace (final full_world)) = [filename 16; filename 32]
   ∧ files full_world !! filename 64 = None
   ∧ files (final full_world) !! filename 64 = Some (Data []))
  ∧ (outcome full_again_world = Raise (OSError 28)
     ∧ saved (trace (final full_again_world)) = [filename 16; filename 32]
     ∧ files full_again_world !! filename 64 = Some (Data [137; 80; 78; 71])
     ∧ files (final full_again_world) !! filename 64 = Some (Data [])).
Proof.
  assert (H1 : outcome full_world = Raise (OSError 28)) by (vm_compute; reflexivity).
  assert (H2 : saved (trace (final full_world)) = [filename 16; filename 32])
    by (vm_compute; reflexivity).
  assert (H3 : files full_world !! filename 64 = None) by (vm_compute; reflexivity).
  assert (H4 : files (final full_world) !! filename 64 = Some (Data []))
    by (vm_compute; reflexivity).
  assert (H5 : outcome full_again_world = Raise (OSError 28)) by (vm_compute; reflexivity).
  assert (H6 : saved (trace (final full_again_world)) = [filename 16; filename 32])
    by (vm_compute; reflexivity).
  assert (H7 : files full_again_world !! filename 64 = Some (Data [137; 80; 78; 71]))
    by (vm_compute; reflexivity).
  assert (H8 : files (final full_again_world) !! filename 64 = Some (Data []))
    by (vm_compute; reflexivity).
  exact (conj (conj H1 (conj H2 (conj H3 H4))) (conj H5 (conj H6 (conj H7 H8)))).
Qed.

(** ** C5: the output does not depend on the run *)

(** C5.  Two runs that return normally, from any two worlds, leave the
    same content at the path of every size: the PNG of an image that is
    a function of the size alone.  This covers a second run started in
    the world the first one left. *)
Theorem same_output w1 w2 :
  outcome w1 = Ok tt → outcome w2 = Ok tt →
  ∀ size, size ∈ sizes →
    files (final w1) !! filename size = files (final w2) !! filename size
    ∧ files (final w1) !! filename size = Some (PNG (the_icon size)).
Proof.
  intros H1 H2 size Hin.
  destruct (final_ok w1 H1) as (Hw1 & _).
  destruct (final_ok w2 H2) as (Hw2 & _).
  rewrite (Hw1 size Hin), (Hw2 size Hin). split; reflexivity.
Qed.

Lemma same_output_witness :
  outcome empty_world = Ok tt ∧ outcome (final empty_world) = Ok tt
  ∧ files (final empty_world) !! filename 16
    = files (final (final empty_world)) !! filename 16.
Proof.
  assert (H1 : outcome empty_world = Ok tt) by (vm_compute; reflexivity).
  assert (H2 : outcome (final empty_world) = Ok tt) by (vm_compute; reflexivity).
  split; [exact H1|]. split; [exact H2|].
  refine (proj1 (same_output empty_world (final empty_world) H1 H2 16 _)).
  apply list_elem_of_here.
Defined.

(** ** C7: an output directory that is already there *)

Lemma makedirs_existing w :
  tree_shaped w → icon_dir ∈ dirs w →
  Os.makedirs icon_dir true w = (Ok tt, log (EvMakedirs icon_dir) w).
Proof.
  intros Htree Hdir.
  assert (Hparent : fst (Os.split icon_dir) ∈ dirs w).
  { destruct (Htree icon_dir Hdir) as [H|H]; [discriminate H | exact H]. }
  unfold Os.makedirs.
  erewrite bind_ok; [reflexivity|].
  cbn [Os.makedirs_rec]. rewrite andb_false_intro2.
  2:{ apply negb_false_iff. unfold Os.exists_.
      change (fst (Os.head_tail icon_dir)) with (fst (Os.split icon_dir)).
      by rewrite bool_decide_eq_true_2. }
  unfold Os.mkdir_last, Os.mkdir, Os.parent_error.
  rewrite bool_decide_eq_false_2 by discriminate.
  unfold Os.isdir at 1. rewrite bool_decide_eq_true_2 by exact Hparent.
  unfold Os.exists_. rewrite (bool_decide_eq_true_2 _ Hdir). cbn [orb].
  unfold Os.isdir. by rewrite (bool_decide_eq_true_2 _ Hdir).
Qed.

Lemma run_bodies_keeps l w p :
  is_Some (files w !! p) → is_Some (files (run_bodies l w) !! p).
Proof.
  intros Hp. induction l as [|size l IH] using rev_ind; [done|].
  rewrite run_bodies_snoc. unfold after_body.
  rewrite !files_log. unfold set_files; cbn [files].
  destruct (decide (filename size = p)) as [->|Hne].
  - rewrite lookup_insert_eq. by eexists.
  - by rewrite lookup_insert_ne.
Qed.

(** Whatever the outcome, the files of a run are those of the iterations
    that were completed. *)
Lemma failed_body_keeps size left w p :
  is_Some (files w !! p) → is_Some (files (failed_body size left w) !! p).
Proof.
  intros Hp.
  destruct (failed_body_spec size left w) as (_ & _ & _ & _ & Hother & Hhere).
  destruct (decide (p = filename size)) as [->|Hne]; [|by rewrite Hother].
  rewrite Hhere. by destruct left.
Qed.

Lemma final_files w :
  dirs (final w) = dirs (prepared w)
  ∧ (∀ p, p ∉ filename <$> sizes → files (final w) !! p = files (prepared w) !! p)
  ∧ (∀ p, is_Some (files (prepared w) !! p) → is_Some (files (final w) !! p)).
Proof.
  unfold final.
  destruct (main_cases w) as [(e & Hmk & Hm) | [(Hmk & pre & size & post & e & Hsz & _ & _ & Hm)
                                               | (Hmk & _ & Hm)]];
    rewrite Hm; cbn [fst snd].
  - done.
  - destruct (split_sizes pre size post Hsz) as (Hin & Hsize & _).
    destruct (stopped_spec pre size (prepared w)) as (Hd & Hf & _).
    split_and!; [done | |].
    + intros p Hp. rewrite Hf, run_bodies_other; [done | |].
      * intros (s & -> & Hs)%list_elem_of_fmap. apply Hp, list_elem_of_fmap.
        exists s. split; [done | by apply Hin].
      * intros ->. apply Hp, list_elem_of_fmap. by exists size.
    + intros p Hp. unfold stopped. cbn zeta.
      by apply failed_body_keeps, run_bodies_keeps.
  - destruct (run_bodies_frame sizes (prepared w)) as (Hd & _).
    rewrite files_log, dirs_log. split_and!; [done | |].
    + intros p Hp. by rewrite run_bodies_other.
    + intros p Hp. by apply run_bodies_keeps.
Qed.

(** C7.  When the output directory already exists in a tree-shaped file
    system, [os.makedirs] returns normally and changes nothing; the run
    as a whole adds no directory, leaves every path other than the
    seven it writes as it was, and removes no file; and it returns
    normally when none of the seven paths is a directory or refused. *)
Theorem existing_directory w :
  tree_shaped w → icon_dir ∈ dirs w →
  Os.makedirs icon_dir true w = (Ok tt, log (EvMakedirs icon_dir) w)
  ∧ dirs (final w) = dirs w
  ∧ (∀ p, p ∉ filename <$> sizes → files (final w) !! p = files w !! p)
  ∧ (∀ p, is_Some (files w !! p) → is_Some (files (final w) !! p))
  ∧ ((∀ size, size ∈ sizes → (filename size ∉ dirs w) ∧ (filename size ∉ denied w)) →
     outcome w = Ok tt).
Proof.
  intros Htree Hdir.
  pose proof (makedirs_existing w Htree Hdir) as Hmk.
  assert (Hprep : prepared w = log (EvMakedirs icon_dir) w)
    by (unfold prepared; by rewrite Hmk).
  destruct (final_files w) as (Hd & Hf & Hk).
  split_and!.
  - exact Hmk.
  - by rewrite Hd, Hprep.
  - intros p Hp. by rewrite (Hf p Hp), Hprep.
  - intros p Hp. apply Hk. by rewrite Hprep.
  - intros Hfree. unfold outcome.
    destruct (main_cases w) as [(e & He & _) | [(_ & pre' & size & post & e & Hsz & _ & Hblk & _)
                                               | (_ & _ & Hm)]].
    + by rewrite Hmk in He.
    + exfalso. rewrite Hprep in Hblk.
      destruct (Hfree size) as [Hnd Hnn];
        [rewrite Hsz; apply elem_of_app; right; apply list_elem_of_here|].
      assert (Hnone : blocked (filename size) (log (EvMakedirs icon_dir) w) = None)
        by (by apply blocked_None).
      by rewrite Hnone in Hblk.
    + by rewrite Hm.
Qed.

Lemma existing_directory_witness :
  tree_shaped catalogue_world ∧ icon_dir ∈ dirs catalogue_world
  ∧ dirs (final catalogue_world) = dirs catalogue_world.
Proof.
  assert (Ht : tree_shaped catalogue_world).
  { intros p Hp. cbn [dirs catalogue_world] in Hp.
    apply elem_of_union in Hp as [Hp|Hp];
      [apply elem_of_union in Hp as [Hp|Hp]|];
      apply elem_of_singleton in Hp; subst p.
    - left. vm_compute. reflexivity.
    - right. vm_compute. reflexivity.
    - right. vm_compute. reflexivity. }
  assert (Hd : icon_dir ∈ dirs catalogue_world) by (vm_compute; reflexivity).
  split; [exact Ht|]. split; [exact Hd|].
  exact (proj1 (proj2 (existing_directory catalogue_world Ht Hd))).
Defined.

(** ** The pixels of the icons *)

Lemma pixel_ok_fast_eq size x y p : pixel_ok_fast size y x p = pixel_ok size x y p.
Proof.
  unfold pixel_ok_fast, pixel_ok, inside, outside, meets_box, dist2, off20.
  replace (20 * x + (10 - 10 * size)) with (20 * x + 10 - 10 * size) by lia.
  replace (20 * y + (10 - 10 * size)) with (20 * y + 10 - 10 * size) by lia.
  reflexivity.
Qed.

Lemma pixel_eqb_eq p q : pixel_eqb p q = true ↔ p = q.
Proof.
  destruct p as [[[r g] b] a], q as [[[r' g'] b'] a']. unfold pixel_eqb.
  rewrite !andb_true_iff, !Z.eqb_eq. split.
  - intros [[[-> ->] ->] ->]. reflexivity.
  - intros [= -> -> -> ->]. done.
Qed.

Lemma all_row_spec P x0 row i p :
  all_row P x0 row = true → row !! i = Some p → P (x0 + Z.of_nat i) p = true.
Proof.
  revert x0 i. induction row as [|q row IH]; intros x0 i Hall Hi; [done|].
  cbn [all_row] in Hall. apply andb_true_iff in Hall as [Hq Hrow].
  destruct i as [|i].
  - injection Hi as ->. by rewrite Z.add_0_r.
  - replace (x0 + Z.of_nat (S i)) with ((x0 + 1) + Z.of_nat i) by lia.
    by apply IH.
Qed.

Lemma all_rows_spec P y0 rows j row :
  all_rows P y0 rows = true → rows !! j = Some row →
  all_row (P (y0 + Z.of_nat j)) 0 row = true.
Proof.
  revert y0 j. induction rows as [|r rows IH]; intros y0 j Hall Hj; [done|].
  cbn [all_rows] in Hall. apply andb_true_iff in Hall as [Hr Hrows].
  destruct j as [|j].
  - injection Hj as ->. by rewrite Z.add_0_r.
  - replace (y0 + Z.of_nat (S j)) with ((y0 + 1) + Z.of_nat j) by lia.
    by apply IH.
Qed.

Lemma getpixel_Some im x y p :
  Pillow.getpixel im x y = Some p →
  0 ≤ x ∧ 0 ≤ y
  ∧ ∃ row, Pillow.image32 im !! Z.to_nat y = Some row ∧ row !! Z.to_nat x = Some p.
Proof.
  unfold Pillow.getpixel.
  destruct (x <? 0) eqn:Hx; [done|]. destruct (y <? 0) eqn:Hy; [done|].
  cbn [orb]. intros H.
  destruct (Pillow.image32 im !! Z.to_nat y) as [row|] eqn:Hrow; [|done].
  split_and!; [lia | lia |]. by exists row.
Qed.

Lemma all_pixels_spec P im x y p :
  all_pixels P im = true → Pillow.getpixel im x y = Some p → P y x p = true.
Proof.
  intros Hall (Hx & Hy & row & Hrow & Hp)%getpixel_Some.
  pose proof (all_rows_spec P 0 _ _ _ Hall Hrow) as Hr.
  pose proof (all_row_spec _ 0 _ _ _ Hr Hp) as Hpx.
  by rewrite !Z.add_0_l, !Z2Nat.id in Hpx.
Qed.

Lemma getpixel_shaped mode w h im x y :
  shaped mode w h im → 0 ≤ x < w → 0 ≤ y < h → is_Some (Pillow.getpixel im x y).
Proof.
  intros (_ & _ & _ & Hrows & Hrow) Hx Hy. unfold Pillow.getpixel.
  replace (x <? 0) with false by (symmetry; apply Z.ltb_ge; lia).
  replace (y <? 0) with false by (symmetry; apply Z.ltb_ge; lia).
  cbn [orb].
  destruct (lookup_lt_is_Some_2 (Pillow.image32 im) (Z.to_nat y)) as [row Hr]; [lia|].
  rewrite Hr. cbn.
  apply lookup_lt_is_Some_2.
  rewrite (proj1 (Forall_forall _ _) Hrow row); [lia|].
  eapply list_elem_of_lookup_2, Hr.
Qed.

(** Every pixel of every icon passes the test. *)
Lemma icon_pixels size x y p :
  size ∈ sizes → Pillow.getpixel (the_icon size) x y = Some p →
  pixel_ok size x y p = true.
Proof.
  intros Hin Hp. rewrite <- pixel_ok_fast_eq.
  apply (all_pixels_spec (pixel_ok_fast size) (the_icon size)); [|exact Hp].
  clear Hp. revert size Hin.
  apply (for_sizes (λ size, all_pixels (pixel_ok_fast size) (the_icon size))).
  vm_cast_no_check (eq_refl true).
Qed.

Lemma icon_pixel_colour size x y p :
  size ∈ sizes → Pillow.getpixel (the_icon size) x y = Some p →
  p = green ∨ p = transparent.
Proof.
  intros Hin Hp. pose proof (icon_pixels size x y p Hin Hp) as Hok.
  unfold pixel_ok in Hok. destruct (pixel_eqb p green) eqn:Hg.
  - left. by apply pixel_eqb_eq.
  - right. apply andb_true_iff in Hok as [Ht _]. by apply pixel_eqb_eq.
Qed.

Lemma icon_pixel_inside size x y :
  size ∈ sizes → 0 ≤ x < size → 0 ≤ y < size → inside size x y = true →
  Pillow.getpixel (the_icon size) x y = Some green.
Proof.
  intros Hin Hx Hy Hins.
  destruct (getpixel_shaped "RGBA" size size (the_icon size) x y) as [p Hp];
    [by apply icon_shaped, icon_sizes | done | done |].
  pose proof (icon_pixels size x y p Hin Hp) as Hok.
  unfold pixel_ok in Hok. destruct (pixel_eqb p green) eqn:Hg.
  - apply pixel_eqb_eq in Hg. by rewrite Hp, Hg.
  - rewrite Hins in Hok. by rewrite andb_false_r in Hok.
Qed.

Lemma icon_pixel_outside size x y :
  size ∈ sizes → 0 ≤ x < size → 0 ≤ y < size → outside size x y = true →
  Pillow.getpixel (the_icon size) x y = Some transparent.
Proof.
  intros Hin Hx Hy Hout.
  destruct (getpixel_shaped "RGBA" size size (the_icon size) x y) as [p Hp];
    [by apply icon_shaped, icon_sizes | done | done |].
  pose proof (icon_pixels size x y p Hin Hp) as Hok.
  unfold pixel_ok in Hok. destruct (pixel_eqb p green) eqn:Hg.
  - by rewrite Hout in Hok.
  - apply andb_true_iff in Hok as [Ht _]. apply pixel_eqb_eq in Ht. by rewrite Hp, Ht.
Qed.

Lemma sizes_positive size : size ∈ sizes → 16 ≤ size.
Proof.
  intros Hin. apply (for_sizes (λ s, 16 <=? s)) in Hin; [lia | reflexivity].
Qed.

(** ** C4: the centre pixel *)

(** C4.  When the run returns normally, the pixel at the centre
    [(size // 2, size // 2)] of every written image, and its three
    neighbours about the centre point, are the fill colour; the fill
    colour the three-element constant [green_color] stands for is
    [(52, 199, 89, 255)], each channel a byte. *)
Theorem centre_pixel w size :
  outcome w = Ok tt → size ∈ sizes →
  Pillow.getink green_color = Some (52, 199, 89, 255)
  ∧ Forall (λ c, 0 ≤ c ≤ 255) [52; 199; 89; 255]
  ∧ ∃ im, files (final w) !! filename size = Some (PNG im)
          ∧ Pillow.getpixel im (size / 2) (size / 2) = Some (52, 199, 89, 255)
          ∧ Pillow.getpixel im (size / 2 - 1) (size / 2) = Some (52, 199, 89, 255)
          ∧ Pillow.getpixel im (size / 2) (size / 2 - 1) = Some (52, 199, 89, 255)
          ∧ Pillow.getpixel im (size / 2 - 1) (size / 2 - 1) = Some (52, 199, 89, 255).
Proof.
  intros Hok Hin. destruct (final_ok w Hok) as (Hwr & _).
  split; [reflexivity|]. split; [repeat constructor; lia|].
  exists (the_icon size). split; [apply Hwr, Hin|].
  pose proof (sizes_positive size Hin) as Hpos.
  assert (Hc : 0 ≤ size / 2 - 1 ∧ size / 2 < size).
  { split; [|apply Z.div_lt; lia].
    assert (8 ≤ size / 2) by (apply Z.div_le_lower_bound; lia). lia. }
  assert (Hins : inside size (size / 2) (size / 2) = true
                 ∧ inside size (size / 2 - 1) (size / 2) = true
                 ∧ inside size (size / 2) (size / 2 - 1) = true
                 ∧ inside size (size / 2 - 1) (size / 2 - 1) = true).
  { apply (for_sizes (λ s, inside s (s / 2) (s / 2) && inside s (s / 2 - 1) (s / 2)
                           && inside s (s / 2) (s / 2 - 1)
                           && inside s (s / 2 - 1) (s / 2 - 1))) in Hin;
      [|vm_compute; reflexivity].
    rewrite !andb_true_iff in Hin. tauto. }
  destruct Hins as (H1 & H2 & H3 & H4).
  split_and!; apply icon_pixel_inside; (done || lia).
Qed.

Lemma centre_pixel_witness :
  outcome empty_world = Ok tt ∧ 16 ∈ sizes
  ∧ Pillow.getink green_color = Some (52, 199, 89, 255).
Proof.
  assert (H : outcome empty_world = Ok tt) by (vm_compute; reflexivity).
  assert (Hin : 16 ∈ sizes) by apply list_elem_of_here.
  split; [exact H|]. split; [exact Hin|].
  exact (proj1 (centre_pixel empty_world 16 H Hin)).
Defined.

(** ** C6: the transparent background *)

Lemma ImagingFill_getpixel mode w h ink x y p :
  Pillow.getpixel (Pillow.ImagingFill mode w h ink) x y = Some p → p = ink.
Proof.
  intros (_ & _ & row & Hrow & Hp)%getpixel_Some.
  cbn [Pillow.ImagingFill Pillow.image32] in Hrow.
  apply lookup_replicate in Hrow as [-> _].
  by apply lookup_replicate in Hp as [-> _].
Qed.

(** C6.  [Image.new('RGBA', (size, size), (0, 0, 0, 0))] allocates, for
    any size that is not negative, a buffer of [size] rows of [size]
    pixels in mode RGBA, every pixel of which is [(0, 0, 0, 0)]; and when
    the run returns normally the four corner pixels of every written
    image are still [(0, 0, 0, 0)], of alpha 0. *)
Theorem transparent_background w size :
  outcome w = Ok tt → size ∈ sizes →
  (∀ n s, 0 ≤ n →
     ∃ im, Image_new "RGBA" (n, n) [0; 0; 0; 0] s
             = (Ok (List.length (heap s)), set_heap (heap s ++ [im]) s)
           ∧ shaped "RGBA" n n im
           ∧ ∀ x y p, Pillow.getpixel im x y = Some p →
                      p = (0, 0, 0, 0) ∧ Pillow.alpha p = 0)
  ∧ ∃ im, files (final w) !! filename size = Some (PNG im)
          ∧ Pillow.alpha (0, 0, 0, 0) = 0
          ∧ Pillow.getpixel im 0 0 = Some (0, 0, 0, 0)
          ∧ Pillow.getpixel im (size - 1) 0 = Some (0, 0, 0, 0)
          ∧ Pillow.getpixel im 0 (size - 1) = Some (0, 0, 0, 0)
          ∧ Pillow.getpixel im (size - 1) (size - 1) = Some (0, 0, 0, 0).
Proof.
  intros Hok Hin. split.
  - intros n s Hn. exists (Pillow.ImagingFill "RGBA" n n transparent).
    split; [by apply Image_new_ok|]. split; [apply ImagingFill_shaped|].
    intros x y p Hp. apply ImagingFill_getpixel in Hp. by subst p.
  - destruct (final_ok w Hok) as (Hwr & _).
    exists (the_icon size). split; [apply Hwr, Hin|]. split; [reflexivity|].
    pose proof (sizes_positive size Hin) as Hpos.
    assert (Hout : outside size 0 0 = true ∧ outside size (size - 1) 0 = true
                   ∧ outside size 0 (size - 1) = true
                   ∧ outside size (size - 1) (size - 1) = true).
    { apply (for_sizes (λ s, outside s 0 0 && outside s (s - 1) 0
                             && outside s 0 (s - 1) && outside s (s - 1) (s - 1))) in Hin;
        [|vm_compute; reflexivity].
      rewrite !andb_true_iff in Hin. tauto. }
    destruct Hout as (H1 & H2 & H3 & H4).
    split_and!; apply icon_pixel_outside; (done || lia).
Qed.

Lemma transparent_background_witness :
  outcome empty_world = Ok tt ∧ 16 ∈ sizes
  ∧ ∃ im, files (final empty_world) !! filename 16 = Some (PNG im)
          ∧ Pillow.alpha (0, 0, 0, 0) = 0
          ∧ Pillow.getpixel im 0 0 = Some (0, 0, 0, 0)
          ∧ Pillow.getpixel im (16 - 1) 0 = Some (0, 0, 0, 0)
          ∧ Pillow.getpixel im 0 (16 - 1) = Some (0, 0, 0, 0)
          ∧ Pillow.getpixel im (16 - 1) (16 - 1) = Some (0, 0, 0, 0).
Proof.
  assert (H : outcome empty_world = Ok tt) by (vm_compute; reflexivity).
  assert (Hin : 16 ∈ sizes) by apply list_elem_of_here.
  split; [exact H|]. split; [exact Hin|].
  exact (proj2 (transparent_background empty_world 16 H Hin)).
Defined.

(** ** C9: the fill is opaque *)

(** C9.  The fill constant has three elements, and the ink Pillow makes
    of it for an RGBA image has alpha 255.  When the run returns
    normally, every pixel of every written image is either that ink or
    the untouched background, so every pixel the ellipse covered has
    alpha 255; and every pixel whose centre is within [0.45 * size - 1]
    of the centre of the image is covered. *)
Theorem opaque_interior w size :
  outcome w = Ok tt → size ∈ sizes →
  List.length green_color = 3%nat
  ∧ Pillow.getink green_color = Some (52, 199, 89, 255)
  ∧ ∃ im, files (final w) !! filename size = Some (PNG im)
          ∧ (∀ x y p, Pillow.getpixel im x y = Some p →
                      p = (52, 199, 89, 255) ∨ p = (0, 0, 0, 0))
          ∧ (∀ x y p, Pillow.getpixel im x y = Some p → p ≠ (0, 0, 0, 0) →
                      Pillow.alpha p = 255)
          ∧ (∀ x y, 0 ≤ x < size → 0 ≤ y < size → inside size x y = true →
                    Pillow.getpixel im x y = Some (52, 199, 89, 255)).
Proof.
  intros Hok Hin. destruct (final_ok w Hok) as (Hwr & _).
  split; [reflexivity|]. split; [reflexivity|].
  exists (the_icon size). split; [apply Hwr, Hin|]. split_and!.
  - intros x y p Hp. exact (icon_pixel_colour size x y p Hin Hp).
  - intros x y p Hp Hne.
    destruct (icon_pixel_colour size x y p Hin Hp) as [->| ->]; [reflexivity | done].
  - intros x y Hx Hy Hins. by apply icon_pixel_inside.
Qed.

Lemma opaque_interior_witness :
  outcome empty_world = Ok tt ∧ 16 ∈ sizes
  ∧ Pillow.getink green_color = Some (52, 199, 89, 255).
Proof.
  assert (H : outcome empty_world = Ok tt) by (vm_compute; reflexivity).
  assert (Hin : 16 ∈ sizes) by apply list_elem_of_here.
  split; [exact H|]. split; [exact Hin|].
  exact (proj1 (proj2 (opaque_interior empty_world 16 H Hin))).
Defined.

(** ** C2: the margin and the ellipse *)





(** ** Beyond the claims: termination and the exceptions of a run *)

(** X1.  A run always ends: neither the recursion of [os.makedirs] nor
    the drawing loops of Pillow hang, in any world; the outcome is a
    normal return or an exception. *)
Theorem run_terminates w : outcome w = Ok tt ∨ ∃ e, outcome w = Raise e.
Proof.
  unfold outcome.
  destruct (main_cases w) as [(e & _ & Hm) | [(_ & pre & size & post & e & _ & _ & _ & Hm)
                                             | (_ & _ & Hm)]];
    rewrite Hm; cbn [fst]; eauto.
Qed.

Lemma create_refusal_os p w : is_os_error (Os.create_refusal p w) = true.
Proof. unfold Os.create_refusal. by repeat case_match. Qed.

Lemma parent_error_os p w e : Os.parent_error p w = Some e → is_os_error e = true.
Proof.
  unfold Os.parent_error. cbn zeta.
  repeat (case_bool_decide || case_match); by intros [= <-].
Qed.

Lemma mkdir_errors p w e w' :
  Os.mkdir p w = (Raise e, w') → is_os_error e = true.
Proof.
  unfold Os.mkdir.
  destruct (Os.parent_error p w) as [e0|] eqn:Hpar.
  - intros [= <- <-]. by eapply parent_error_os.
  - destruct (Os.exists_ p w); [by intros [= <- <-]|].
    case_bool_decide; [|done]. intros [= <- <-]. apply create_refusal_os.
Qed.

Lemma mkdir_last_errors p ok w e w' :
  Os.mkdir_last p ok w = (Raise e, w') → is_os_error e = true.
Proof.
  unfold Os.mkdir_last.
  destruct (Os.mkdir p w) as [[[]|e0|] w1] eqn:Hmk; try done.
  destruct (negb ok || negb (Os.isdir p w1)); [|done].
  intros [= <- <-]. by eapply mkdir_errors.
Qed.

Lemma makedirs_rec_errors fuel name ok w e w' :
  Os.makedirs_rec fuel name ok w = (Raise e, w') → is_os_error e = true.
Proof.
  revert name w e w'. induction fuel as [|fuel IH]; intros name w e w'; [done|].
  cbn [Os.makedirs_rec].
  destruct (_ && _); [|apply mkdir_last_errors].
  unfold mbind, M_bind, bind, try_pass.
  destruct (Os.makedirs_rec fuel _ ok w) as [[[]|e0|] w1] eqn:Hrec.
  - case_bool_decide; [done | apply mkdir_last_errors].
  - destruct (decide (e0 = FileExistsError)).
    + case_bool_decide; [done | apply mkdir_last_errors].
    + intros [= <- <-]. by eapply IH.
  - done.
Qed.

Lemma blocked_errors f w e : blocked f w = Some e → is_os_error e = true.
Proof.
  unfold blocked. destruct (Os.isdir f w); [by intros [= <-]|].
  case_bool_decide; [|done]. intros [= <-]. apply create_refusal_os.
Qed.

(** X2.  The only exceptions a run can end with are those of the file
    system calls, [OSError] with the error number of the operating
    system (a full or read-only volume, say) or one of its subclasses:
    none of the checks of Pillow ([ValueError], [TypeError], [KeyError])
    fires for the sizes, the colours and the format of the script. *)
Theorem run_raises_os_errors w e :
  outcome w = Raise e →
  (∃ errno, e = OSError errno)
  ∨ e ∈ [FileExistsError; FileNotFoundError; NotADirectoryError;
         IsADirectoryError; PermissionError].
Proof.
  unfold outcome. intros Hout.
  assert (Hos : is_os_error e = true).
  { destruct (main_cases w) as [(e' & Hmk & Hm) | [(_ & pre & size & post & e' & _ & _ & Hblk & Hm)
                                                  | (_ & _ & Hm)]];
      rewrite Hm in Hout; cbn [fst] in Hout; [| |done]; injection Hout as ->.
    - unfold Os.makedirs, mbind, M_bind, bind in Hmk.
      destruct (Os.makedirs_rec _ icon_dir true w) as [[[]|e0|] w1] eqn:Hrec;
        cbn [fst] in Hmk; try done.
      injection Hmk as ->. by eapply makedirs_rec_errors.
    - by eapply blocked_errors. }
  destruct e; try discriminate Hos; [by left; eexists | right ..]; set_solver.
Qed.

Lemma run_raises_os_errors_witness :
  outcome full_world = Raise (OSError 28)
  ∧ ((∃ errno, OSError 28 = OSError errno)
     ∨ OSError 28 ∈ [FileExistsError; FileNotFoundError; NotADirectoryError;
                     IsADirectoryError; PermissionError]).
Proof.
  assert (H : outcome full_world = Raise (OSError 28)) by (vm_compute; reflexivity).
  split; [exact H|].
  exact (run_raises_os_errors full_world (OSError 28) H).
Defined.

Lemma denied_log e w : denied (log e w) = denied w.
Proof. reflexivity. Qed.

Lemma prepared_dir_facts w :
  outcome w = Ok tt →
  icon_dir ∈ dirs (prepared w) ∧ dirs (final w) = dirs (prepared w).
Proof.
  intros Hok. apply main_ok in Hok as (Hmk & _ & Hfin).
  destruct (run_bodies_frame sizes (prepared w)) as (Hd & _).
  split; [apply prepared_ok, Hmk|]. rewrite Hfin, dirs_log. exact Hd.
Qed.

(** ** Beyond the claims: the directory tree *)

Lemma mkdir_tree p w : tree_shaped w → tree_shaped (snd (Os.mkdir p w)).
Proof.
  intros Htree. unfold Os.mkdir.
  destruct (Os.parent_error p w) eqn:Hpar; [done|].
  destruct (Os.exists_ p w); [done|]. case_bool_decide; [done|].
  cbn [snd]. intros q Hq. unfold set_dirs in *; cbn [dirs] in *.
  apply elem_of_union in Hq as [Hq|Hq].
  - apply elem_of_singleton in Hq as ->.
    unfold Os.parent_error in Hpar. case_bool_decide; [by left|].
    right. unfold Os.isdir in Hpar. case_bool_decide; [|by destruct (Os.exists_ _ w)].
    by apply elem_of_union_r.
  - destruct (Htree q Hq) as [H0|H0]; [by left | right; by apply elem_of_union_r].
Qed.

Lemma mkdir_last_tree p ok w : tree_shaped w → tree_shaped (snd (Os.mkdir_last p ok w)).
Proof.
  intros Htree. unfold Os.mkdir_last. pose proof (mkdir_tree p w Htree) as H.
  destruct (Os.mkdir p w) as [[[]|e|] w1]; cbn [snd] in *; try done.
  by destruct (negb ok || negb (Os.isdir p w1)).
Qed.

Lemma makedirs_rec_tree fuel name ok w :
  tree_shaped w → tree_shaped (snd (Os.makedirs_rec fuel name ok w)).
Proof.
  revert name w. induction fuel as [|fuel IH]; intros name w Htree; [done|].
  cbn [Os.makedirs_rec].
  destruct (_ && _); [|by apply mkdir_last_tree].
  unfold mbind, M_bind, bind.
  pose proof (IH (fst (Os.head_tail name)) w Htree) as H1.
  rewrite <- (try_pass_snd FileExistsError) in H1.
  destruct (try_pass _ _ w) as [[[]|e|] w1]; cbn [snd] in *; try done.
  case_bool_decide; [done | by apply mkdir_last_tree].
Qed.

Lemma prepared_tree w : tree_shaped w → tree_shaped (prepared w).
Proof.
  intros Htree. unfold prepared, Os.makedirs, mbind, M_bind, bind.
  pose proof (makedirs_rec_tree (S (String.length icon_dir)) icon_dir true w Htree) as H.
  by destruct (Os.makedirs_rec _ icon_dir true w) as [[[]|e|] w1].
Qed.

Lemma final_tree w : tree_shaped w → tree_shaped (final w).
Proof.
  intros Htree. apply prepared_tree in Htree.
  destruct (final_files w) as (Hd & _).
  intros p Hp. rewrite Hd in Hp |- *. by apply Htree.
Qed.

(** X3.  The run keeps the directories a tree: when every directory of
    the file system has its parent directory before the run, the same
    holds after it, whatever the outcome; [os.makedirs] creates the
    missing ancestors first and the loop creates no directory. *)
Theorem run_keeps_tree w : tree_shaped w → tree_shaped (final w).
Proof. apply final_tree. Qed.

Lemma run_keeps_tree_witness :
  tree_shaped empty_world ∧ tree_shaped (final empty_world).
Proof.
  assert (H : tree_shaped empty_world).
  { intros p Hp. cbn [dirs empty_world] in Hp. by apply elem_of_empty in Hp. }
  split; [exact H|]. exact (run_keeps_tree empty_world H).
Defined.

(** ** Beyond the claims: running again *)

Lemma run_bodies_files_eq l w1 w2 :
  files w1 = files w2 → files (run_bodies l w1) = files (run_bodies l w2).
Proof.
  intros Heq. induction l as [|size l IH] using rev_ind; [done|].
  rewrite !run_bodies_snoc. unfold after_body.
  rewrite !files_log. unfold set_files; cbn [files]. by rewrite IH.
Qed.

Lemma run_bodies_twice l w :
  files (run_bodies l (run_bodies l w)) = files (run_bodies l w).
Proof.
  apply map_eq. intros p.
  destruct (decide (p ∈ filename <$> l)) as [Hin|Hout].
  - apply list_elem_of_fmap in Hin as (s & -> & Hs).
    by rewrite !run_bodies_written.
  - by rewrite (run_bodies_other l (run_bodies l w)).
Qed.

(** X4.  Running the script again after a run that returned normally,
    in a tree-shaped file system, returns normally again and leaves the
    directories and the files exactly as the first run left them. *)
Theorem rerun_changes_nothing w :
  tree_shaped w → outcome w = Ok tt →
  outcome (final w) = Ok tt
  ∧ dirs (final (final w)) = dirs (final w)
  ∧ files (final (final w)) = files (final w).
Proof.
  intros Htree Hok.
  pose proof (final_tree w Htree) as Htree'.
  destruct (prepared_dir_facts w Hok) as (Hdir & Hd).
  apply main_ok in Hok as (_ & Hfree & Hfin).
  destruct (run_bodies_frame sizes (prepared w)) as (_ & Hn & _).
  assert (Hfiles : files (final w) = files (run_bodies sizes (prepared w)))
    by (by rewrite Hfin, files_log).
  assert (Hden : denied (final w) = denied (prepared w))
    by (by rewrite Hfin, denied_log).
  clear Hfin. revert Htree' Hd Hfiles Hden. generalize (final w). intros W Htree' Hd Hfiles Hden.
  assert (Hdir' : icon_dir ∈ dirs W) by (by rewrite Hd).
  pose proof (makedirs_existing W Htree' Hdir') as Hmk.
  assert (Hprep : prepared W = log (EvMakedirs icon_dir) W)
    by (unfold prepared; by rewrite Hmk).
  assert (Hfree' : ∀ s, s ∈ sizes → blocked (filename s) (prepared W) = None).
  { intros s Hs. apply blocked_None. rewrite Hprep, dirs_log, denied_log, Hd, Hden.
    by apply blocked_None, Hfree. }
  assert (Hm : main W = (Ok tt, log (EvPrint done_line) (run_bodies sizes (prepared W)))).
  { rewrite main_spec, Hmk, <- Hprep.
    rewrite (loop_ok sizes (prepared W) sizes_in_sizes); [done| |done].
    rewrite Hprep, dirs_log. exact Hdir'. }
  unfold outcome, final. rewrite Hm. cbn [fst snd].
  split; [done|]. split.
  - rewrite dirs_log.
    destruct (run_bodies_frame sizes (prepared W)) as (HdW & _).
    by rewrite HdW, Hprep, dirs_log.
  - rewrite files_log.
    rewrite (run_bodies_files_eq sizes (prepared W) (run_bodies sizes (prepared w))).
    + rewrite Hfiles. apply run_bodies_twice.
    + by rewrite Hprep, files_log.
Qed.

Lemma rerun_changes_nothing_witness :
  tree_shaped empty_world ∧ outcome empty_world = Ok tt
  ∧ outcome (final empty_world) = Ok tt.
Proof.
  assert (Ht : tree_shaped empty_world).
  { intros p Hp. cbn [dirs empty_world] in Hp. by apply elem_of_empty in Hp. }
  assert (H : outcome empty_world = Ok tt) by (vm_compute; reflexivity).
  split; [exact Ht|]. split; [exact H|].
  exact (proj1 (rerun_changes_nothing empty_world Ht H)).
Defined.

(** ** Beyond the claims: what a run leaves alone *)

Lemma heap_log e w : heap (log e w) = heap w.
Proof. reflexivity. Qed.

Lemma stopped_rest pre size w :
  denied (stopped pre size w) = denied w
  ∧ heap (stopped pre size w) = heap w ++ (the_icon <$> pre) ++ [the_icon size].
Proof.
  destruct (run_bodies_frame pre w) as (_ & Hn & Hh & _).
  unfold stopped. cbn zeta.
  destruct (failed_body_spec size (partial (filename size) (run_bodies pre w))
              (run_bodies pre w)) as (_ & Hn' & Hh' & _).
  by rewrite Hn', Hh', Hn, Hh, <- app_assoc.
Qed.

Lemma final_rest w :
  denied (final w) = denied w
  ∧ (∃ h, heap (final w) = heap w ++ h)
  ∧ (∃ t, trace (final w) = trace w ++ t).
Proof.
  destruct (prepared_spec w) as (_ & _ & Hn & Hh).
  assert (Htp : ∃ t, trace (prepared w) = trace w ++ t).
  { destruct (fst (Os.makedirs icon_dir true w)) as [[]|e|] eqn:Hmk.
    - destruct (prepared_ok w Hmk) as [_ Ht]. eauto.
    - exists []. rewrite prepared_failed, app_nil_r; [done | by rewrite Hmk].
    - exists []. rewrite prepared_failed, app_nil_r; [done | by rewrite Hmk]. }
  destruct Htp as [t0 Ht0].
  unfold final.
  destruct (main_cases w) as [(e & _ & Hm) | [(_ & pre & size & post & e & _ & _ & _ & Hm)
                                             | (_ & _ & Hm)]];
    rewrite Hm; cbn [snd].
  - split; [exact Hn|]. split; [exists []; by rewrite Hh, app_nil_r | eauto].
  - destruct (stopped_rest pre size (prepared w)) as (Hn' & Hh').
    destruct (stopped_spec pre size (prepared w)) as (_ & _ & Ht').
    split; [by rewrite Hn'|]. split.
    + eexists. rewrite Hh', Hh. reflexivity.
    + eexists. rewrite Ht', Ht0, <- app_assoc. reflexivity.
  - destruct (run_bodies_frame sizes (prepared w)) as (_ & Hn' & Hh' & Ht').
    rewrite denied_log, heap_log, trace_log.
    split; [by rewrite Hn'|]. split.
    + eexists. rewrite Hh', Hh. reflexivity.
    + eexists. rewrite Ht', Ht0, <- !app_assoc. reflexivity.
Qed.

(** X5.  Whatever the world and the outcome, a run only adds: every
    directory is still there, the paths other than the seven icon paths
    hold what they held, no file is removed, the image objects that
    existed are untouched (each iteration works on an image of its own),
    and the trace is only extended. *)
Theorem run_only_adds w :
  dirs w ⊆ dirs (final w)
  ∧ denied (final w) = denied w
  ∧ (∀ p, p ∉ filename <$> sizes → files (final w) !! p = files w !! p)
  ∧ (∀ p, is_Some (files w !! p) → is_Some (files (final w) !! p))
  ∧ heap w `prefix_of` heap (final w)
  ∧ trace w `prefix_of` trace (final w).
Proof.
  destruct (final_files w) as (Hd & Hf & Hk).
  destruct (prepared_spec w) as (Hsub & Hfp & _ & _).
  destruct (final_rest w) as (Hn & [h Hh] & [t Ht]).
  split_and!.
  - by rewrite Hd.
  - exact Hn.
  - intros p Hp. by rewrite (Hf p Hp), Hfp.
  - intros p Hp. apply Hk. by rewrite Hfp.
  - exists h. exact Hh.
  - exists t. exact Ht.
Qed.

(** X6.  Two different sizes never share a file name: the name embeds
    the decimal form of the size, which determines it. *)
Theorem distinct_sizes_distinct_files (a b : Z) : a ≠ b → filename a ≠ filename b.
Proof. intros Hne Heq. by apply Hne, filename_inj. Qed.

Lemma distinct_sizes_distinct_files_witness :
  16 ≠ 32 ∧ filename 16 ≠ filename 32.
Proof.
  assert (H : 16 ≠ 32) by lia.
  split; [exact H|]. exact (distinct_sizes_distinct_files 16 32 H).
Defined.

(** ** Beyond the claims: when a run succeeds *)

Lemma mkdir_last_succeeds p w :
  Os.parent_error p w = None → files w !! p = None → p ∉ denied w →
  ∃ w', Os.mkdir_last p true w = (Ok tt, w') ∧ created_dirs {[p]} w w'.
Proof.
  intros Hpar Hfile Hden. unfold Os.mkdir_last, Os.mkdir. rewrite Hpar.
  unfold Os.exists_. rewrite Hfile.
  rewrite (bool_decide_eq_false_2 (is_Some None)) by (by intros [? ?]).
  rewrite orb_false_r. case_bool_decide as Hdir.
  - cbn [negb orb]. unfold Os.isdir. rewrite bool_decide_eq_true_2 by done.
    exists w. split; [done|]. unfold created_dirs. split_and!; try done.
    apply leibniz_equiv. set_solver.
  - rewrite bool_decide_eq_false_2 by done.
    eexists. split; [done|]. by unfold created_dirs.
Qed.

Lemma created_dirs_trans D1 D2 w1 w2 w3 :
  created_dirs D1 w1 w2 → created_dirs D2 w2 w3 → created_dirs (D2 ∪ D1) w1 w3.
Proof.
  intros (Hd & Hf & Hn & Hh & Ht) (Hd' & Hf' & Hn' & Hh' & Ht').
  unfold created_dirs. split_and!; try congruence.
  rewrite Hd', Hd. apply leibniz_equiv. by rewrite (assoc_L (∪)).
Qed.

(** One level of [os.makedirs]: the ancestors [D] first when the head is
    missing, then the directory itself. *)
Lemma makedirs_level fuel name head tail D w :
  Os.head_tail name = (head, tail) → fst (Os.split name) = head →
  head ≠ ""%string → tail ≠ ""%string → tail ≠ "."%string →
  (head ∈ dirs w → D ⊆ dirs w) →
  (Os.exists_ head w = false →
     ∃ w1, Os.makedirs_rec fuel head true w = (Ok tt, w1)
           ∧ created_dirs D w w1 ∧ head ∈ D) →
  files w !! head = None → files w !! name = None → name ∉ denied w →
  ∃ w2, Os.makedirs_rec (S fuel) name true w = (Ok tt, w2)
        ∧ created_dirs ({[name]} ∪ D) w w2.
Proof.
  intros Hht Hsplit Hhead Htail Hdot Hanc Hrec Hfh Hfn Hden.
  cbn [Os.makedirs_rec]. rewrite Hht. cbn [fst snd].
  rewrite !(bool_decide_eq_false_2 (_ = ""%string)) by done. cbn [negb andb].
  destruct (Os.exists_ head w) eqn:Hex; cbn [negb].
  - assert (Hdir : head ∈ dirs w).
    { unfold Os.exists_ in Hex. rewrite Hfh in Hex.
      rewrite (bool_decide_eq_false_2 (is_Some None)) in Hex by (by intros [? ?]).
      rewrite orb_false_r in Hex. by apply bool_decide_eq_true in Hex. }
    destruct (mkdir_last_succeeds name w) as (w2 & Hmk & Hc); [|done|done|].
    { unfold Os.parent_error. rewrite Hsplit.
      rewrite bool_decide_eq_false_2 by done.
      unfold Os.isdir. by rewrite bool_decide_eq_true_2. }
    exists w2. split; [done|].
    destruct Hc as (Hd & Hrest). split; [|done].
    rewrite Hd. apply leibniz_equiv. specialize (Hanc Hdir). set_solver.
  - destruct (Hrec eq_refl) as (w1 & Hrun & Hc1 & HinD).
    unfold mbind, M_bind, bind, try_pass. rewrite Hrun.
    rewrite bool_decide_eq_false_2 by done.
    destruct Hc1 as (Hd1 & Hf1 & Hn1 & Hh1 & Ht1).
    destruct (mkdir_last_succeeds name w1) as (w2 & Hmk & Hc2).
    + unfold Os.parent_error. rewrite Hsplit.
      rewrite bool_decide_eq_false_2 by done.
      unfold Os.isdir. rewrite bool_decide_eq_true_2; [done|].
      rewrite Hd1. by apply elem_of_union_l.
    + by rewrite Hf1.
    + by rewrite Hn1.
    + exists w2. split; [done|].
      by apply (created_dirs_trans D {[name]} w w1 w2).
Qed.

Lemma makedirs_dir1 fuel w :
  files w !! dir1 = None → dir1 ∉ denied w →
  ∃ w1, Os.makedirs_rec (S fuel) dir1 true w = (Ok tt, w1)
        ∧ created_dirs {[dir1]} w w1.
Proof.
  intros Hf Hn. cbn [Os.makedirs_rec].
  change (fst (Os.head_tail dir1)) with ""%string.
  rewrite bool_decide_eq_true_2 by done. cbn [negb andb].
  by apply mkdir_last_succeeds.
Qed.

Lemma makedirs_creates w :
  tree_shaped w →
  (∀ p, p ∈ [dir1; dir2; icon_dir] → files w !! p = None ∧ p ∉ denied w) →
  ∃ w3, Os.makedirs icon_dir true w = (Ok tt, log (EvMakedirs icon_dir) w3)
        ∧ created_dirs {[dir1; dir2; icon_dir]} w w3.
Proof.
  intros Htree Hfree.
  destruct (Hfree dir1) as [Hf1 Hn1]; [set_solver|].
  destruct (Hfree dir2) as [Hf2 Hn2]; [set_solver|].
  destruct (Hfree icon_dir) as [Hf3 Hn3]; [set_solver|].
  assert (H12 : dir2 ∈ dirs w → dir1 ∈ dirs w).
  { intros H. by destruct (Htree dir2 H) as [H0|H0]; [discriminate H0|]. }
  assert (H23 : icon_dir ∈ dirs w → dir2 ∈ dirs w).
  { intros H. by destruct (Htree icon_dir H) as [H0|H0]; [discriminate H0|]. }
  assert (Hl2 : ∀ fuel, ∃ w2, Os.makedirs_rec (S (S fuel)) dir2 true w = (Ok tt, w2)
                              ∧ created_dirs ({[dir2]} ∪ {[dir1]}) w w2).
  { intros fuel.
    apply (makedirs_level (S fuel) dir2 dir1 "Assets.xcassets"); try done.
    - intros H. apply singleton_subseteq_l. exact H.
    - intros _. destruct (makedirs_dir1 fuel w Hf1 Hn1) as (w1 & Hrun & Hc).
      exists w1. split_and!; [done | done | set_solver]. }
  destruct (makedirs_level 39 icon_dir dir2 "AppIcon.appiconset" ({[dir2]} ∪ {[dir1]}) w)
    as (w3 & Hrun & Hc); try done.
  - intros H. apply union_subseteq. split; apply singleton_subseteq_l; auto.
  - intros _. destruct (Hl2 37%nat) as (w2 & Hrun2 & Hc2).
    exists w2. split_and!; [done | done | set_solver].
  - exists w3. split.
    + unfold Os.makedirs. change (S (String.length icon_dir)) with 41%nat.
      by erewrite bind_ok by exact Hrun.
    + destruct Hc as (Hd & Hrest). split; [|done].
      rewrite Hd. apply leibniz_equiv. set_solver.
Qed.

Lemma filename_not_ancestor size :
  size ∈ sizes → filename size ∉ ({[dir1; dir2; icon_dir]} : gset string).
Proof.
  intros Hin.
  apply (for_sizes (λ s, bool_decide (filename s ≠ dir1) && bool_decide (filename s ≠ dir2)
                         && bool_decide (filename s ≠ icon_dir))) in Hin;
    [|vm_compute; reflexivity].
  rewrite !andb_true_iff, !bool_decide_eq_true in Hin. set_solver.
Qed.

(** X7.  In a tree-shaped file system with nothing in the way (no
    regular file at the output directory or its ancestors, none of them
    refused, no icon path a directory or refused) the run returns
    normally; it leaves the output directory and its two ancestors in
    place next to the directories there were, and a PNG at each of the
    seven paths. *)
Theorem run_succeeds w :
  tree_shaped w → writable w →
  outcome w = Ok tt
  ∧ dirs (final w) = {[dir1; dir2; icon_dir]} ∪ dirs w
  ∧ ∀ size, size ∈ sizes → ∃ im, files (final w) !! filename size = Some (PNG im).
Proof.
  intros Htree [Hdirs Hicons].
  destruct (makedirs_creates w Htree Hdirs) as (w3 & Hmk & Hd & _ & Hn & _).
  assert (Hprep : prepared w = log (EvMakedirs icon_dir) w3)
    by (unfold prepared; by rewrite Hmk).
  assert (Hok : outcome w = Ok tt).
  { unfold outcome.
    destruct (main_cases w) as [(e & He & _) | [(_ & pre & size & post & e & Hsz & _ & Hblk & _)
                                               | (_ & _ & Hm)]].
    - by rewrite Hmk in He.
    - exfalso. rewrite Hprep in Hblk.
      assert (Hin : size ∈ sizes)
        by (rewrite Hsz; apply elem_of_app; right; apply list_elem_of_here).
      destruct (Hicons size Hin) as [Hnd Hnn].
      pose proof (filename_not_ancestor size Hin) as Hna.
      assert (Hnone : blocked (filename size) (log (EvMakedirs icon_dir) w3) = None).
      { apply blocked_None. rewrite dirs_log, denied_log, Hd, Hn.
        split; [by intros [?|?]%elem_of_union | done]. }
      by rewrite Hnone in Hblk.
    - by rewrite Hm. }
  split; [exact Hok|]. split.
  - destruct (prepared_dir_facts w Hok) as (_ & ->).
    by rewrite Hprep, dirs_log.
  - intros size Hin. destruct (final_ok w Hok) as (Hwr & _).
    exists (the_icon size). by apply Hwr.
Qed.

Lemma run_succeeds_witness :
  tree_shaped empty_world ∧ writable empty_world ∧ outcome empty_world = Ok tt.
Proof.
  assert (Ht : tree_shaped empty_world).
  { intros p Hp. cbn [dirs empty_world] in Hp. by apply elem_of_empty in Hp. }
  assert (Hw : writable empty_world).
  { split.
    - intros p _. split; [apply lookup_empty | apply not_elem_of_empty].
    - intros size _. split; apply not_elem_of_empty. }
  split; [exact Ht|]. split; [exact Hw|].
  exact (proj1 (run_succeeds empty_world Ht Hw)).
Defined.

(** ** Beyond the claims: drawing through the handle *)

Lemma redrawn_refl l w : redrawn l w w.
Proof. unfold redrawn. split_and!; try done. intros im mode x y H Hs. eauto. Qed.

Lemma redrawn_trans l w1 w2 w3 : redrawn l w1 w2 → redrawn l w2 w3 → redrawn l w1 w3.
Proof.
  intros (Hd & Hf & Hn & Ht & Hl & Ho & Hs) (Hd' & Hf' & Hn' & Ht' & Hl' & Ho' & Hs').
  unfold redrawn. split_and!; try congruence.
  - intros l' Hne. by rewrite Ho', Ho.
  - intros im mode x y Him Hsh.
    destruct (Hs im mode x y Him Hsh) as (im' & Him' & Hsh'). eauto.
Qed.

Lemma draw_ellipse_redrawn d xy ink fill width w :
  redrawn (draw_im d) w (snd (draw_ellipse d xy ink fill width w)).
Proof.
  unfold draw_ellipse.
  destruct xy as [|x0 [|y0 [|x1 [|y1 [|? ?]]]]]; try apply redrawn_refl.
  destruct (PrimFloat.ltb x1 x0); [apply redrawn_refl|].
  destruct (PrimFloat.ltb y1 y0); [apply redrawn_refl|].
  unfold mbind, M_bind, bind, get. cbn [snd].
  destruct (heap w !! draw_im d) as [im|] eqn:Him; [|apply redrawn_refl].
  destruct (Pillow.ImagingDrawEllipse im _ _ _ _ ink fill width) as [im'|] eqn:Hdraw;
    [|apply redrawn_refl].
  unfold modify, set_heap, redrawn; cbn [snd dirs files denied trace heap].
  split_and!; try done.
  - by rewrite length_insert.
  - intros l' Hne. by rewrite list_lookup_insert_ne.
  - intros im0 mode x y Him0 Hsh. rewrite Him in Him0. injection Him0 as <-.
    exists im'. split.
    + apply list_lookup_insert_eq. by eapply lookup_lt_Some.
    + by eapply ImagingDrawEllipse_shaped.
Qed.

(** X8.  [draw.ellipse], with any coordinates, colours and width and
    whether it returns or raises, changes nothing but the pixels of the
    image the handle was made for: that image keeps its mode and its
    dimensions, every other image object is untouched, and so are the
    file system and the trace. *)
Theorem ellipse_draws_on_its_image d xy fill outline width w :
  redrawn (draw_im d) w (snd (ImageDraw_ellipse d xy fill outline width w)).
Proof.
  unfold ImageDraw_ellipse, mbind, M_bind, bind.
  assert (Hink : snd (ImageDraw_getink outline fill w) = w).
  { unfold ImageDraw_getink, mbind, M_bind, bind, ret, raise.
    destruct outline as [c|], fill as [c'|]; try done;
      repeat (destruct (Pillow.getink _)); done. }
  destruct (ImageDraw_getink outline fill w) as [[[ink fill_ink]|e|] w0];
    cbn [snd] in *; subst w0; try apply redrawn_refl.
  assert (Hout : ∀ w1, redrawn (draw_im d) w w1 →
            redrawn (draw_im d) w
              (snd (match ink with
                    | Some i =>
                        if negb (bool_decide (ink = fill_ink)) && negb (width =? 0)
                        then draw_ellipse d xy i false width
                        else ret tt
                    | None => ret tt
                    end w1))).
  { intros w1 H1. eapply redrawn_trans; [exact H1|].
    destruct ink as [i|]; [|apply redrawn_refl].
    destruct (_ && _); [apply draw_ellipse_redrawn | apply redrawn_refl]. }
  destruct fill_ink as [f|].
  - pose proof (draw_ellipse_redrawn d xy f true 0 w) as H1.
    destruct (draw_ellipse d xy f true 0 w) as [[[]|e|] w1]; cbn [snd] in *;
      [by apply Hout | done | done].
  - unfold ret at 1. apply Hout, redrawn_refl.
Qed.

(** X9.  For a negative size the loop body raises [ValueError] at
    [Image.new], before anything is allocated, drawn, written or
    printed: the world is left as it was. *)
Theorem body_negative_size size w :
  size < 0 → body size w = (Raise ValueError, w).
Proof.
  intros Hneg. unfold body, Image_new.
  replace (size <? 0) with true by (symmetry; apply Z.ltb_lt; lia).
  reflexivity.
Qed.

Lemma body_negative_size_witness :
  -1 < 0 ∧ body (-1) empty_world = (Raise ValueError, empty_world).
Proof.
  assert (H : -1 < 0) by lia.
  split; [exact H|]. exact (body_negative_size (-1) empty_world H).
Defined.

(** ** Beyond the claims: the icons are symmetric *)

Lemma row_eqb_eq a b : row_eqb a b = true → a = b.
Proof.
  revert b. induction a as [|p a IH]; intros [|q b] H; try done.
  cbn [row_eqb] in H. apply andb_true_iff in H as [Hp Ha].
  apply pixel_eqb_eq in Hp as ->. f_equal. by apply IH.
Qed.

Lemma rows_eqb_eq a b : rows_eqb a b = true → a = b.
Proof.
  revert b. induction a as [|r a IH]; intros [|s b] H; try done.
  cbn [rows_eqb] in H. apply andb_true_iff in H as [Hr Ha].
  apply row_eqb_eq in Hr as ->. f_equal. by apply IH.
Qed.

Lemma lookup_mirror {A} (l : list A) (i : nat) :
  l = reverse l → (i < List.length l)%nat →
  l !! (List.length l - S i)%nat = l !! i.
Proof.
  intros Hrev Hi. rewrite Hrev at 2. rewrite reverse_lookup by lia.
  f_equal. lia.
Qed.

Lemma icons_mirrored size : size ∈ sizes → mirrored (the_icon size) = true.
Proof. apply (for_sizes (λ s, mirrored (the_icon s))). vm_cast_no_check (eq_refl true). Qed.

(** X10.  Every written icon is symmetric about the vertical and the
    horizontal axis of the image: the pixel at [(x, y)] equals the one
    at [(size - 1 - x, y)] and the one at [(x, size - 1 - y)]. *)
Theorem icons_symmetric w size x y :
  outcome w = Ok tt → size ∈ sizes → 0 ≤ x < size → 0 ≤ y < size →
  ∃ im, files (final w) !! filename size = Some (PNG im)
        ∧ Pillow.getpixel im (size - 1 - x) y = Pillow.getpixel im x y
        ∧ Pillow.getpixel im x (size - 1 - y) = Pillow.getpixel im x y.
Proof.
  intros Hok Hin Hx Hy. destruct (final_ok w Hok) as (Hwr & _).
  exists (the_icon size). split; [apply Hwr, Hin|].
  pose proof (icons_mirrored size Hin) as Hm. unfold mirrored in Hm.
  apply andb_true_iff in Hm as [Hrows Hrow]. apply rows_eqb_eq in Hrows.
  rewrite forallb_forall in Hrow.
  destruct (icon_shaped size (the_icon size) (icon_sizes size Hin))
    as (_ & _ & _ & Hlen & Hlens).
  unfold Pillow.getpixel.
  replace (x <? 0) with false by (symmetry; apply Z.ltb_ge; lia).
  replace (y <? 0) with false by (symmetry; apply Z.ltb_ge; lia).
  replace (size - 1 - x <? 0) with false by (symmetry; apply Z.ltb_ge; lia).
  replace (size - 1 - y <? 0) with false by (symmetry; apply Z.ltb_ge; lia).
  cbn [orb]. split.
  - destruct (Pillow.image32 (the_icon size) !! Z.to_nat y) as [row|] eqn:Hr; [|done].
    cbn. assert (Hrl : List.length row = Z.to_nat size).
    { eapply (proj1 (Forall_forall _ _) Hlens), list_elem_of_lookup_2, Hr. }
    replace (Z.to_nat (size - 1 - x)) with (List.length row - S (Z.to_nat x))%nat by lia.
    apply lookup_mirror; [|lia].
    apply row_eqb_eq, Hrow, list_elem_of_In. eapply list_elem_of_lookup_2, Hr.
  - replace (Z.to_nat (size - 1 - y))
      with (List.length (Pillow.image32 (the_icon size)) - S (Z.to_nat y))%nat by lia.
    rewrite lookup_mirror; [done | done | lia].
Qed.

Lemma icons_symmetric_witness :
  outcome empty_world = Ok tt ∧ 16 ∈ sizes ∧ 0 ≤ 3 < 16 ∧ 0 ≤ 5 < 16
  ∧ ∃ im, files (final empty_world) !! filename 16 = Some (PNG im)
          ∧ Pillow.getpixel im (16 - 1 - 3) 5 = Pillow.getpixel im 3 5
          ∧ Pillow.getpixel im 3 (16 - 1 - 5) = Pillow.getpixel im 3 5.
Proof.
  assert (H : outcome empty_world = Ok tt) by (vm_compute; reflexivity).
  assert (Hin : 16 ∈ sizes) by apply list_elem_of_here.
  assert (Hx : 0 ≤ 3 < 16) by lia.
  assert (Hy : 0 ≤ 5 < 16) by lia.
  split; [exact H|]. split; [exact Hin|]. split; [exact Hx|]. split; [exact Hy|].
  exact (icons_symmetric empty_world 16 3 5 H Hin Hx Hy).
Defined.
